(** * pdfconverter: statement-to-CSV extraction (funciones/pdfconverter.py)

    Shallow embedding of the text and table paths of [pdf_to_csv]:
    the Python string built-ins the module calls, a backtracking
    matcher for the regular expressions it compiles, [parse_line],
    [parse_text_to_csv], [clean_df] and the fallback cascade of
    [pdf_to_csv].

    Modelling conventions.
    - Text is a list of 8-bit characters, one [ascii] per code point
      (code points below 256); [len] is [length].
    - A Python [float] is the exact rational its decimal literal
      denotes, kept in lowest terms so that equal values are equal
      terms; binary rounding is outside the model.
    - A statement that raises is [Raise]; one that returns [v] is
      [Ret v].
    - pdfplumber, the pandas frame constructor and CSV codec, the file
      system and the chat-completion client are collaborators, gathered
      in the record [world].  [pd.to_numeric] is modelled, as
      [to_numeric]; for the frames of records the CSV codec is spelled
      out as well ([write_csv], [read_rows]).
    - The diagnostic lines printed to stderr are left out; what a run
      leaves behind is the list of stages it entered. *)

From Stdlib Require Import Ascii String Bool Arith ZArith QArith Lia.
From Stdlib Require Import DecimalString List.
Import ListNotations.

Set Implicit Arguments.

Local Open Scope list_scope.
Local Open Scope nat_scope.

(** ** Text *)

Definition str : Type := list ascii.

Definition lit (s : string) : str := list_ascii_of_string s.

Definition code (a : ascii) : nat := nat_of_ascii a.

(** [str.isspace] on one character, which is also the class [\s] of a
    text pattern: TAB..CR, FS..US, space, NEL and NBSP. *)
Definition is_space (a : ascii) : bool :=
  let n := code a in
  ((9 <=? n) && (n <=? 13)) || ((28 <=? n) && (n <=? 32))
  || (n =? 133) || (n =? 160).

(** The class [\d]: the decimal digits. *)
Definition is_digit (a : ascii) : bool :=
  let n := code a in (48 <=? n) && (n <=? 57).

Definition is_char (c a : ascii) : bool := Ascii.eqb a c.

(** The class [.]: anything but a line feed. *)
Definition is_dot (a : ascii) : bool := negb (Ascii.eqb a "010"%char).

Definition str_eqb (s t : str) : bool :=
  if list_eq_dec ascii_dec s t then true else false.

(** [s.lstrip()], [s.rstrip()], [s.strip()]. *)
Fixpoint lstrip (s : str) : str :=
  match s with
  | a :: s' => if is_space a then lstrip s' else s
  | [] => []
  end.

Definition rstrip (s : str) : str := rev (lstrip (rev s)).

Definition strip (s : str) : str := rstrip (lstrip s).

(** [s.startswith(p)]. *)
Fixpoint startswith (p s : str) : bool :=
  match p, s with
  | [], _ => true
  | a :: p', b :: s' => Ascii.eqb a b && startswith p' s'
  | _ :: _, [] => false
  end.

(** [s.endswith(p)]. *)
Definition endswith (p s : str) : bool := startswith (rev p) (rev s).

(** [p in s]. *)
Fixpoint contains (p s : str) : bool :=
  startswith p s ||
  match s with
  | [] => false
  | _ :: s' => contains p s'
  end.

(** [s.lower()] on the letters A..Z; no other character below 256 has
    a lower-case form among the letters of [".pdf"]. *)
Definition lower_char (a : ascii) : ascii :=
  let n := code a in
  if (65 <=? n) && (n <=? 90) then ascii_of_nat (n + 32) else a.

Definition lower (s : str) : str := map lower_char s.

(** [s.split(sep)] for a one-character separator. *)
Fixpoint split (sep : ascii) (s : str) : list str :=
  match s with
  | [] => [[]]
  | a :: s' =>
    if Ascii.eqb a sep then [] :: split sep s'
    else match split sep s' with
         | l :: ls => (a :: l) :: ls
         | [] => [[a]]
         end
  end.

(** [s.replace(old, new)]: occurrences of [old] are replaced from left
    to right without overlap.  [skip] counts the characters of an
    occurrence still to be dropped.  ([old] is never empty here.) *)
Fixpoint replace_from (old new : str) (skip : nat) (s : str) : str :=
  match s with
  | [] => []
  | a :: s' =>
    match skip with
    | S j => replace_from old new j s'
    | O =>
      if startswith old s
      then new ++ replace_from old new (length old - 1) s'
      else a :: replace_from old new 0 s'
    end
  end.

Definition replace (old new : str) (s : str) : str :=
  replace_from old new 0 s.

(** ** Exceptions *)

Inductive outcome (A : Type) : Type :=
| Raise
| Ret (a : A).

Arguments Raise {A}.

Definition bind {A B : Type} (x : outcome A) (f : A -> outcome B)
  : outcome B :=
  match x with
  | Raise => Raise
  | Ret a => f a
  end.

Notation "x <- e ;; k" := (bind e (fun x => k))
  (at level 61, e at next level, right associativity).

(** [l[i]] with Python's negative indices; [IndexError] out of range. *)
Definition item {A : Type} (l : list A) (i : Z) : outcome A :=
  let n := Z.of_nat (length l) in
  let j := (if i <? 0 then n + i else i)%Z in
  if ((0 <=? j) && (j <? n))%Z
  then match nth_error l (Z.to_nat j) with
       | Some a => Ret a
       | None => Raise
       end
  else Raise.

(** ** Floats *)

Definition digit_val (a : ascii) : Z := Z.of_nat (code a - 48).

(** The integer written by a run of digits, most significant first. *)
Definition digits_val (ds : str) : Z :=
  fold_left (fun acc a => (10 * acc + digit_val a)%Z) ds 0%Z.

(** Longest prefix of characters in a class, and the rest. *)
Fixpoint span (p : ascii -> bool) (s : str) : str * str :=
  match s with
  | a :: s' =>
    if p a then let (u, v) := span p s' in (a :: u, v) else ([], s)
  | [] => ([], [])
  end.

Definition sign_of (s : str) : bool * str :=
  match s with
  | a :: s' =>
    if is_char "-" a then (true, s')
    else if is_char "+" a then (false, s') else (false, s)
  | [] => (false, [])
  end.

(** mantissa * 10^e as a rational in lowest terms. *)
Definition decimal (neg : bool) (mant : Z) (e : Z) : Q :=
  let m := (if neg then - mant else mant)%Z in
  Qred (if (0 <=? e)%Z
        then Qmake (m * 10 ^ e) 1
        else Qmake m (Z.to_pos (10 ^ (- e)))).

(** [float(s)] on the decimal literals: optional surrounding
    whitespace, an optional sign, digits with an optional point, an
    optional exponent.  [ValueError] otherwise.  (The spellings "inf",
    "nan" and digit grouping by "_" are not covered: no token of
    [num_pattern] produces them.  Table cells are not read by [float]
    but by [to_numeric] below.) *)
Definition float (s : str) : outcome Q :=
  let (neg, s1) := sign_of (strip s) in
  let (ip, s2) := span is_digit s1 in
  let (fp, s3) :=
    match s2 with
    | a :: t => if is_char "." a then span is_digit t else ([], s2)
    | [] => ([], s2)
    end in
  match ip ++ fp with
  | [] => Raise
  | _ :: _ =>
    let mant := digits_val (ip ++ fp) in
    let scale := (- Z.of_nat (length fp))%Z in
    match s3 with
    | [] => Ret (decimal neg mant scale)
    | a :: t =>
      if is_char "e" a || is_char "E" a then
        let (eneg, t1) := sign_of t in
        let (ed, t2) := span is_digit t1 in
        match ed, t2 with
        | _ :: _, [] =>
          let e := digits_val ed in
          Ret (decimal neg mant (scale + (if eneg then - e else e)))
        | _, _ => Raise
        end
      else Raise
    end
  end.

(** ** Regular expressions

    The patterns of the module, as syntax trees, and Python's
    backtracking search over them: alternatives are tried in priority
    order and the first success wins. *)

Inductive regex : Type :=
| Eps
| Chr (p : ascii -> bool)
| Seq (r1 r2 : regex)
| Alt (r1 r2 : regex)
| Star (greedy : bool) (r : regex)
| Group (i : nat) (r : regex)
| Look (r : regex)
| Bol
| Eol.

(** [r?], [r+], [r+?], [r{k}], [r{k,}] and a literal string. *)
Definition Opt (r : regex) : regex := Alt r Eps.
Definition Plus (r : regex) : regex := Seq r (Star true r).
Definition PlusLazy (r : regex) : regex := Seq r (Star false r).

Fixpoint Times (k : nat) (r : regex) : regex :=
  match k with
  | O => Eps
  | S O => r
  | S k' => Seq r (Times k' r)
  end.

Definition AtLeast (k : nat) (r : regex) : regex :=
  Seq (Times k r) (Star true r).

Fixpoint Lit (s : str) : regex :=
  match s with
  | [] => Eps
  | a :: s' => Seq (Chr (is_char a)) (Lit s')
  end.

(** Captured groups, most recent binding first. *)
Definition caps : Type := list (nat * str).

Fixpoint group (c : caps) (i : nat) : option str :=
  match c with
  | [] => None
  | (j, t) :: c' => if j =? i then Some t else group c' i
  end.

(** The loop of a repetition over [body], the matcher of the repeated
    pattern.  A greedy loop tries one more iteration before going on;
    a lazy one goes on first.  An iteration that consumed nothing is
    given up. *)
Fixpoint star_loop (R : Type)
  (body : str -> caps -> (str -> caps -> option R) -> option R)
  (g : bool) (k : str -> caps -> option R)
  (fuel : nat) (s : str) (c : caps) {struct fuel} : option R :=
  match fuel with
  | O => k s c
  | S f =>
    let again :=
      fun s1 c1 =>
        if length s1 <? length s then star_loop body g k f s1 c1
        else None in
    if g then
      match body s c again with
      | Some x => Some x
      | None => k s c
      end
    else
      match k s c with
      | Some x => Some x
      | None => body s c again
      end
  end.

(** [rmatch n r s c k]: match [r] at the front of [s], the unread part
    of a subject of length [n], with captures [c]; [k] continues on
    what is left. *)
Fixpoint rmatch (R : Type) (n : nat) (r : regex) (s : str) (c : caps)
  (k : str -> caps -> option R) {struct r} : option R :=
  match r with
  | Eps => k s c
  | Chr p =>
    match s with
    | a :: s' => if p a then k s' c else None
    | [] => None
    end
  | Seq r1 r2 =>
    rmatch n r1 s c (fun s1 c1 => rmatch n r2 s1 c1 k)
  | Alt r1 r2 =>
    match rmatch n r1 s c k with
    | Some x => Some x
    | None => rmatch n r2 s c k
    end
  | Star g r1 =>
    star_loop (fun s1 c1 k1 => rmatch n r1 s1 c1 k1) g k (length s) s c
  | Group i r1 =>
    rmatch n r1 s c
      (fun s1 c1 => k s1 ((i, firstn (length s - length s1) s) :: c1))
  | Look r1 =>
    match rmatch n r1 s c (fun _ c1 => Some c1) with
    | Some c1 => k s c1
    | None => None
    end
  | Bol => if length s =? n then k s c else None
  | Eol =>
    match s with
    | [] => k s c
    | [a] => if is_char "010" a then k s c else None
    | _ => None
    end
  end.

(** One attempt at the front of [s]: what is left, and the groups. *)
Definition match_at (n : nat) (r : regex) (s : str)
  : option (str * caps) :=
  rmatch n r s [] (fun s' c' => Some (s', c')).

(** [re.match(r, s)]. *)
Definition re_match (r : regex) (s : str) : option (str * caps) :=
  match_at (length s) r s.

(** [re.search(r, s)]: the leftmost position with a match. *)
Fixpoint search_from (n : nat) (r : regex) (s : str)
  : option (str * caps) :=
  match s with
  | [] => match_at n r []
  | _ :: s' =>
    match match_at n r s with
    | Some m => Some m
    | None => search_from n r s'
    end
  end.

Definition re_search (r : regex) (s : str) : option (str * caps) :=
  search_from (length s) r s.

(** [re.findall(r, s)] for a pattern without capturing groups: the
    matched texts, left to right, without overlap. *)
Fixpoint findall_from (n : nat) (r : regex) (skip : nat) (s : str)
  : list str :=
  match s with
  | [] =>
    match skip, match_at n r [] with
    | O, Some _ => [[]]
    | _, _ => []
    end
  | _ :: s' =>
    match skip with
    | S j => findall_from n r j s'
    | O =>
      match match_at n r s with
      | Some (rest, _) =>
        firstn (length s - length rest) s
          :: findall_from n r (length s - length rest - 1) s'
      | None => findall_from n r 0 s'
      end
    end
  end.

Definition re_findall (r : regex) (s : str) : list str :=
  findall_from (length s) r 0 s.

(** [re.sub(r, repl, s)] for a replacement text without group
    references. *)
Fixpoint sub_from (n : nat) (r : regex) (repl : str) (skip : nat)
  (s : str) : str :=
  match s with
  | [] =>
    match skip, match_at n r [] with
    | O, Some _ => repl
    | _, _ => []
    end
  | a :: s' =>
    match skip with
    | S j => sub_from n r repl j s'
    | O =>
      match match_at n r s with
      | Some (rest, _) =>
        match length s - length rest with
        | O => repl ++ a :: sub_from n r repl 0 s'
        | S j => repl ++ sub_from n r repl j s'
        end
      | None => a :: sub_from n r repl 0 s'
      end
    end
  end.

Definition re_sub (r : regex) (repl : str) (s : str) : str :=
  sub_from (length s) r repl 0 s.

(** ** The patterns of [parse_line] and [clean_df] *)

Notation "r1 >> r2" := (Seq r1 r2) (at level 60, right associativity).

Definition d : regex := Chr is_digit.
Definition sp : regex := Chr is_space.

(** [num_pattern = r'-?\d+(?:\.\d{3})*(?:,\d{2})'] *)
Definition num_pattern : regex :=
  Opt (Chr (is_char "-")) >> Plus d
  >> Star true (Chr (is_char ".") >> Times 3 d)
  >> (Chr (is_char ",") >> Times 2 d).

(** [r'(\d{2})\s+(\d{2})\s+(\d{2})'], searched by the PAGOS rule. *)
Definition date_pattern : regex :=
  Group 1 (Times 2 d) >> Plus sp >> Group 2 (Times 2 d) >> Plus sp
  >> Group 3 (Times 2 d).

(** [r'^\s*(\d{2})\s+(\d{2})\s+(\d{2})'], the head of [trans_pattern]. *)
Definition date_prefix : regex :=
  Bol >> Star true sp >> date_pattern.

(** [trans_pattern]: the date head, then
    [\s+(?P<code>\d{4})?\s+(?P<desc>.+?)(?=\s{4,}] [num_pattern] [)];
    [code] is group 4 and [desc] group 5. *)
Definition trans_tail : regex :=
  Plus sp >> Opt (Group 4 (Times 4 d)) >> Plus sp
  >> Group 5 (PlusLazy (Chr is_dot))
  >> Look (AtLeast 4 sp >> num_pattern).

Definition trans_pattern : regex := date_prefix >> trans_tail.

(** [r'(\d+/\d+)'] *)
Definition cuota_pattern : regex :=
  Group 1 (Plus d >> Chr (is_char "/") >> Plus d).

(** [r'\s*' + re.escape(cuotas) + r'\s*'] *)
Definition cuota_strip_pattern (cuotas : str) : regex :=
  Star true sp >> Lit cuotas >> Star true sp.

(** [r'^-?\d+[.,]?\d*$'], the column test of [clean_df]. *)
Definition numeric_cell_pattern : regex :=
  Bol >> Opt (Chr (is_char "-")) >> Plus d
  >> Opt (Chr (fun a => is_char "." a || is_char "," a))
  >> Star true d >> Eol.

(** ** Records *)

(** A value of a record field or of a frame cell: text, a float, or
    [None].  [PInf] is an infinite float, which only [pd.to_numeric]
    makes here; it is a value, not a missing one. *)
Inductive pyval : Type :=
| PStr (s : str)
| PFloat (q : Q)
| PInf (neg : bool)
| PNone.

(** The dictionary [parse_line] returns, by key. *)
Record record : Type := {
  Fecha : pyval;
  Codigo : pyval;
  Descripcion : pyval;
  Cuotas : pyval;
  Monto_UYU : pyval;
  Monto_USD : pyval;
  Tipo : pyval
}.

(** ['Transacción'], the o-acute being code point 243. *)
Definition Transaccion : str :=
  lit "Transacci" ++ [ascii_of_nat 243] ++ lit "n".

(** ** parse_line *)

(** [float(tok.replace('.', '').replace(',', '.'))] *)
Definition amount (tok : str) : outcome Q :=
  float (replace (lit ",") (lit ".") (replace (lit ".") [] tok)).

(** An [if] block that may [return]: a record ends the function,
    [None] lets control reach the next block. *)
Definition or_next (x y : outcome (option record))
  : outcome (option record) :=
  r <- x ;;
  match r with
  | Some v => Ret (Some v)
  | None => y
  end.

Definition saldo_anterior (line : str) : outcome (option record) :=
  if contains (lit "SALDO DEL ESTADO DE CUENTA ANTERIOR") line then
    let amounts := re_findall num_pattern line in
    if 2 <=? length amounts then
      t2 <- item amounts (-2) ;; uyu <- amount t2 ;;
      t1 <- item amounts (-1) ;; usd <- amount t1 ;;
      Ret (Some {| Fecha := PStr []; Codigo := PStr [];
                   Descripcion := PStr (lit "SALDO ANTERIOR");
                   Cuotas := PStr [];
                   Monto_UYU := PFloat uyu; Monto_USD := PFloat usd;
                   Tipo := PStr (lit "Saldo") |})
    else Ret None
  else Ret None.

(** How an f-string prints a group: its text, or [None]. *)
Definition fmt (g : option str) : str :=
  match g with
  | Some t => t
  | None => lit "None"
  end.

Definition pagos (line : str) : outcome (option record) :=
  if contains (lit "PAGOS") line then
    let date_match := re_search date_pattern line in
    let amounts := re_findall num_pattern line in
    match date_match with
    | Some (_, c) =>
      if 2 <=? length amounts then
        let date_str :=
          fmt (group c 1) ++ lit "/" ++ fmt (group c 2) ++ lit "/"
          ++ fmt (group c 3) in
        t2 <- item amounts (-2) ;; uyu <- amount t2 ;;
        t1 <- item amounts (-1) ;; usd <- amount t1 ;;
        Ret (Some {| Fecha := PStr date_str; Codigo := PStr [];
                     Descripcion := PStr (lit "PAGOS");
                     Cuotas := PStr [];
                     Monto_UYU := PFloat uyu; Monto_USD := PFloat usd;
                     Tipo := PStr (lit "Pago") |})
      else Ret None
    | None => Ret None
    end
  else Ret None.

Definition seguro (line : str) : outcome (option record) :=
  if contains (lit "SEGURO DE VIDA SOBRE SALDO") line then
    let amounts := re_findall num_pattern line in
    if 2 <=? length amounts then
      t0 <- item amounts 0 ;; uyu <- amount t0 ;;
      t1 <- item amounts 1 ;; usd <- amount t1 ;;
      Ret (Some {| Fecha := PStr []; Codigo := PStr [];
                   Descripcion := PStr (lit "SEGURO DE VIDA");
                   Cuotas := PStr [];
                   Monto_UYU := PFloat uyu; Monto_USD := PFloat usd;
                   Tipo := PStr (lit "Cargo") |})
    else Ret None
  else Ret None.

Definition saldo_contado (line : str) : outcome (option record) :=
  if contains (lit "SALDO CONTADO") line then
    let amounts := re_findall num_pattern line in
    if 2 <=? length amounts then
      t2 <- item amounts (-2) ;; uyu <- amount t2 ;;
      t1 <- item amounts (-1) ;; usd <- amount t1 ;;
      Ret (Some {| Fecha := PStr []; Codigo := PStr [];
                   Descripcion := PStr (lit "SALDO FINAL");
                   Cuotas := PStr [];
                   Monto_UYU := PFloat uyu; Monto_USD := PFloat usd;
                   Tipo := PStr (lit "Saldo") |})
    else Ret None
  else Ret None.

(** The general transaction block, from [re.match(trans_pattern, line)]
    to the final [return None]. *)
Definition transaccion (line : str) : outcome (option record) :=
  match re_match trans_pattern line with
  | Some (rest, c) =>
    let code := match group c 4 with Some t => t | None => [] end in
    desc0 <- match group c 5 with
             | Some t => Ret (strip t)
             | None => Raise
             end ;;
    let cuotas :=
      match re_search cuota_pattern desc0 with
      | Some (_, cc) => fmt (group cc 1)
      | None => []
      end in
    let desc :=
      match cuotas with
      | [] => desc0
      | _ :: _ => strip (re_sub (cuota_strip_pattern cuotas) [] desc0)
      end in
    let remaining := strip rest in
    let amounts := re_findall num_pattern remaining in
    match amounts with
    | [] => Ret None
    | _ :: _ =>
      uyu_str <- item amounts (-1) ;;
      usd_str <- (if 1 <? length amounts
                  then t <- item amounts (-2) ;; Ret (Some t)
                  else Ret None) ;;
      uyu <- amount uyu_str ;;
      usd <- match usd_str with
             | Some (a :: t) => q <- amount (a :: t) ;; Ret (PFloat q)
             | _ => Ret PNone
             end ;;
      Ret (Some {| Fecha := PStr (fmt (group c 1) ++ lit "/"
                                  ++ fmt (group c 2) ++ lit "/"
                                  ++ fmt (group c 3));
                   Codigo := PStr code;
                   Descripcion := PStr desc;
                   Cuotas := PStr cuotas;
                   Monto_UYU := PFloat uyu; Monto_USD := usd;
                   Tipo := PStr Transaccion |})
    end
  | None => Ret None
  end.

Definition parse_line (line0 : str) : outcome (option record) :=
  let line := rstrip line0 in
  if length line <? 20 then Ret None
  else
    or_next (saldo_anterior line)
   (or_next (pagos line)
   (or_next (seguro line)
   (or_next (saldo_contado line)
            (transaccion line)))).

(** ** Frames and collaborators *)

(** A frame by columns: a label and the cells under it.  [PNone] is a
    missing cell ([None] or NaN). *)
Definition frame : Type := list (pyval * list pyval).

(** The frames [pdf_to_csv] builds from page tables hold text or [None]
    in every cell, so every column has dtype [object]. *)
Definition text_frame : Type := list (pyval * list (option str)).

Definition nrows {A : Type} (df : list (pyval * list A)) : nat :=
  match df with
  | [] => 0
  | (_, cells) :: _ => length cells
  end.

(** What [page.extract_table()] returns: rows of cells. *)
Definition table : Type := list (list (option str)).

Record page : Type := {
  extract_table : option table;
  extract_text : option str
}.

(** The collaborators of one run.
    - [path_exists]: [os.path.exists].
    - [pdf_open]: [pdfplumber.open(path).pages].
    - [frame_of_tables]: [pd.DataFrame(t[1:], columns=t[0])] for each
      table, then [pd.concat(..., ignore_index=True)].
    - [to_csv]: [df.to_csv(index=False)].
    - [read_csv_len]: [len(pd.read_csv(BytesIO(csv.encode())))].
    - [chat]: the chat completion for the fixed instruction followed
      by the given text; the [content] of its first choice. *)
Record world : Type := {
  path_exists : str -> bool;
  pdf_open : str -> outcome (list page);
  frame_of_tables : list table -> outcome text_frame;
  to_csv : frame -> str;
  read_csv_len : str -> outcome nat;
  chat : str -> outcome (option str)
}.

(** ** clean_df *)

Definition is_some {A : Type} (o : option A) : bool :=
  match o with
  | Some _ => true
  | None => false
  end.

(** [col.str.match(r'^-?\d+[.,]?\d*$', na=False)] on one cell. *)
Definition cell_matches (cell : option str) : bool :=
  match cell with
  | Some t => is_some (re_match numeric_cell_pattern t)
  | None => false
  end.

(** The mask [df.apply(...).any()] on one column. *)
Definition any_match (cells : list (option str)) : bool :=
  existsb cell_matches cells.

Definition pyval_eqb (x y : pyval) : bool :=
  match x, y with
  | PStr s, PStr t => str_eqb s t
  | PFloat p, PFloat q => Qeq_bool p q
  | PInf a, PInf b => Bool.eqb a b
  | PNone, PNone => true
  | _, _ => false
  end.

(** [numeric_cols]: the labels of the columns the mask selects. *)
Definition numeric_cols (df : text_frame) : list pyval :=
  map fst (filter (fun col => any_match (snd col)) df).

(** The white space of C's [isspace], which the number parser of
    pandas skips at both ends: TAB..CR and space, not FS..US, NEL and
    NBSP. *)
Definition is_c_space (a : ascii) : bool :=
  let n := code a in ((9 <=? n) && (n <=? 13)) || (n =? 32).

Fixpoint c_ltrim (s : str) : str :=
  match s with
  | a :: s' => if is_c_space a then c_ltrim s' else s
  | [] => []
  end.

Definition c_trim (s : str) : str := rev (c_ltrim (rev (c_ltrim s))).

(** The spellings of infinity [pd.to_numeric] reads: "inf" and
    "infinity" in any case, with an optional sign and nothing around
    them.  The result is the sign. *)
Definition infinity_of (t : str) : option bool :=
  let (neg, body) := sign_of t in
  let word := lower body in
  if str_eqb word (lit "inf") || str_eqb word (lit "infinity")
  then Some neg else None.

(** [pd.to_numeric(..., errors='coerce')] on one text: a decimal
    literal between C white space is its number, a spelling of
    infinity is an infinite float, and anything else, "nan" and the
    empty text included, is missing (NaN).  (As for [float], numbers
    are exact: a literal beyond the range of a double, which pandas
    does not read as that number, is outside the model.) *)
Definition to_numeric (t : str) : pyval :=
  match infinity_of t with
  | Some neg => PInf neg
  | None =>
    let u := c_trim t in
    if str_eqb (strip u) u
    then match float u with
         | Ret q => PFloat q
         | Raise => PNone
         end
    else PNone
  end.

(** [pd.to_numeric(col.str.replace(',', '.').str.replace('.', '',
    regex=False), errors='coerce')] on one cell. *)
Definition coerce_cell (cell : option str) : pyval :=
  match cell with
  | Some t =>
    to_numeric (replace (lit ".") [] (replace (lit ",") (lit ".") t))
  | None => PNone
  end.

Definition text_cell (cell : option str) : pyval :=
  match cell with
  | Some t => PStr t
  | None => PNone
  end.


(** The loop [for col in numeric_cols: df[col] = ...].  [df[col]] is a
    frame, without [.str], when the label occurs twice:
    [AttributeError]. *)
Definition coerce_columns (df : text_frame) : outcome frame :=
  let labels := map fst df in
  if existsb
       (fun l => 1 <? length (filter (pyval_eqb l) labels))
       (numeric_cols df)
  then Raise
  else
    Ret (map (fun col =>
                (fst col,
                 if any_match (snd col) then map coerce_cell (snd col)
                 else map text_cell (snd col)))
             df).

Definition is_na (v : pyval) : bool :=
  match v with
  | PNone => true
  | _ => false
  end.

(** The cells of row [i], one per column. *)
Definition row (df : frame) (i : nat) : list pyval :=
  map (fun col => nth i (snd col) PNone) df.

Definition non_na (cells : list pyval) : nat :=
  length (filter (fun v => negb (is_na v)) cells).

Fixpoint keep_rows {A : Type} (keep : list bool) (cells : list A)
  : list A :=
  match keep, cells with
  | b :: keep', v :: cells' =>
    if b then v :: keep_rows keep' cells' else keep_rows keep' cells'
  | _, _ => []
  end.

(** [df.dropna(thresh=t)]: the rows with at least [t] cells present. *)
Definition dropna (thresh : nat) (df : frame) : frame :=
  let keep :=
    map (fun i => thresh <=? non_na (row df i)) (seq 0 (nrows df)) in
  map (fun col => (fst col, keep_rows keep (snd col))) df.

Definition clean_df (df : text_frame) : outcome frame :=
  coerced <- coerce_columns df ;;
  Ret (dropna 2 coerced).

(** ** parse_text_to_csv *)

(** [[line for line in text.split('\n') if line.strip()]] *)
Definition text_lines (text : str) : list str :=
  filter (fun line => match strip line with [] => false | _ => true end)
         (split "010" text).

(** The loop over [lines], appending what [parse_line] returns. *)
Fixpoint transactions (lines : list str) : outcome (list record) :=
  match lines with
  | [] => Ret []
  | line :: rest =>
    parsed <- parse_line line ;;
    more <- transactions rest ;;
    Ret (match parsed with
         | Some r => r :: more
         | None => more
         end)
  end.

(** [fillna('')] on one cell. *)
Definition fillna (v : pyval) : pyval :=
  match v with
  | PNone => PStr []
  | _ => v
  end.

(** [pd.DataFrame(transactions)], with ['Monto_USD'] filled and the
    columns in the order of the [reindex]. *)
Definition records_frame (recs : list record) : frame :=
  [ (PStr (lit "Fecha"), map Fecha recs);
    (PStr (lit "Codigo"), map Codigo recs);
    (PStr (lit "Descripcion"), map Descripcion recs);
    (PStr (lit "Cuotas"), map Cuotas recs);
    (PStr (lit "Monto_UYU"), map Monto_UYU recs);
    (PStr (lit "Monto_USD"), map (fun r => fillna (Monto_USD r)) recs);
    (PStr (lit "Tipo"), map Tipo recs) ].

Definition parse_text_to_csv (w : world) (text : str)
  : outcome (option str) :=
  recs <- transactions (text_lines text) ;;
  if length recs <? 3 then Ret None
  else Ret (Some (to_csv w (records_frame recs))).

(** ** parse_with_llm *)

Definition parse_with_llm (w : world) (text : str) : outcome str :=
  content <- chat w (firstn (10 * 1000) text) ;;
  Ret (match content with
       | Some (a :: t) => strip (a :: t)
       | _ => []
       end).

(** ** pdf_to_csv *)

(** The three extraction stages, in the order they are entered. *)
Inductive stage : Type :=
| Tables
| TextParse
| LLM.

(** The tables kept by the first loop: [if table and len(table) > 1]. *)
Definition page_tables (pages : list page) : list table :=
  flat_map (fun p =>
              match extract_table p with
              | Some t => if 1 <? length t then [t] else []
              | None => []
              end) pages.

(** The table stage: [Ret (Some csv)] when it returns the CSV,
    [Ret None] when control leaves the [with] block. *)
Definition table_stage (w : world) (pages : list page)
  : outcome (option str) :=
  match page_tables pages with
  | [] => Ret None
  | tables =>
    combined <- frame_of_tables w tables ;;
    cleaned <- clean_df combined ;;
    if 5 <? nrows cleaned then Ret (Some (to_csv w cleaned))
    else Ret None
  end.

(** [page.extract_text(layout=True) or "" + "\n"]: [+] binds tighter
    than [or]. *)
Definition page_chunk (p : page) : str :=
  match extract_text p with
  | Some (a :: t) => a :: t
  | _ => [] ++ lit (String "010" EmptyString)
  end.

(** The loop [for page in pdf.pages: full_text += ...]. *)
Definition full_text (pages : list page) : str :=
  fold_left (fun acc p => acc ++ page_chunk p) pages [].

(** The text stage: [Ret (Some csv)] when [csv_from_text] is returned. *)
Definition text_stage (w : world) (text : str) : outcome (option str) :=
  csv_from_text <- parse_text_to_csv w text ;;
  match csv_from_text with
  | Some (a :: t) =>
    rows <- read_csv_len w (a :: t) ;;
    if 3 <? rows then Ret (Some (a :: t)) else Ret None
  | _ => Ret None
  end.

(** [pdf_to_csv]: the stages entered, and the value returned.  Any
    exception ends the run with [None]. *)
Definition pdf_to_csv (w : world) (file_path : str)
  : list stage * option str :=
  if negb (path_exists w file_path) then ([], None)
  else if negb (endswith (lit ".pdf") (lower file_path)) then ([], None)
  else
    match pdf_open w file_path with
    | Raise => ([], None)
    | Ret pages =>
      match table_stage w pages with
      | Raise => ([Tables], None)
      | Ret (Some csv) => ([Tables], Some csv)
      | Ret None =>
        let text := full_text pages in
        match text_stage w text with
        | Raise => ([Tables; TextParse], None)
        | Ret (Some csv) => ([Tables; TextParse], Some csv)
        | Ret None =>
          ([Tables; TextParse; LLM],
           match parse_with_llm w text with
           | Raise => None
           | Ret out => Some out
           end)
        end
      end
    end.

(** ** Reading the patterns as relations

    [matches r s s']: [r] can consume the front of [s] and leave [s'].
    The conditions of [^] and [$] are not recorded, so for a pattern
    with anchors this is an upper bound of what the matcher accepts;
    for [num_pattern], which has none, [matches num_pattern tok []]
    says that [tok] is in the language of the pattern. *)

Inductive matches : regex -> str -> str -> Prop :=
| M_Eps s : matches Eps s s
| M_Chr p a s : p a = true -> matches (Chr p) (a :: s) s
| M_Seq r1 r2 s s1 s2 :
    matches r1 s s1 -> matches r2 s1 s2 -> matches (Seq r1 r2) s s2
| M_AltL r1 r2 s s' : matches r1 s s' -> matches (Alt r1 r2) s s'
| M_AltR r1 r2 s s' : matches r2 s s' -> matches (Alt r1 r2) s s'
| M_Star0 g r s : matches (Star g r) s s
| M_StarS g r s s1 s2 :
    matches r s s1 -> matches (Star g r) s1 s2 ->
    matches (Star g r) s s2
| M_Group i r s s' : matches r s s' -> matches (Group i r) s s'
| M_Look r s s1 : matches r s s1 -> matches (Look r) s s
| M_Bol s : matches Bol s s
| M_Eol s : matches Eol s s.

(** Patterns without [^]: their matches do not depend on where in the
    subject they are tried. *)
Fixpoint no_bol (r : regex) : bool :=
  match r with
  | Bol => false
  | Seq r1 r2 | Alt r1 r2 => no_bol r1 && no_bol r2
  | Star _ r1 | Group _ r1 | Look r1 => no_bol r1
  | _ => true
  end.

(** What [replace] does to one character when [old] is the single
    character [c]. *)
Definition subst_char (c : ascii) (new : str) (a : ascii) : str :=
  if Ascii.eqb c a then new else [a].

Definition drop_dot : ascii -> str := subst_char "." [].
Definition comma_to_dot : ascii -> str := subst_char "," ["."%char].

Definition comma_as_point (a : ascii) : ascii :=
  if Ascii.eqb a "," then "."%char else a.

Definition minus_sign (neg : bool) : str :=
  if neg then ["-"%char] else [].

Definition digit_or_dot (a : ascii) : Prop :=
  is_digit a = true \/ a = "."%char.

Definition not_comma (a : ascii) : Prop := a <> ","%char.

(** The number a locale-formatted token denotes: its digits read as an
    integer count of hundredths, negated under a leading minus. *)
Definition token_value (tok : str) : Q :=
  decimal (startswith (lit "-") tok) (digits_val (filter is_digit tok)) (-2).

(** What follows the date head of a line, when it has one. *)
Definition after_date (line : str) : str :=
  skipn 2 (lstrip (skipn 2 (lstrip (skipn 2 (lstrip line))))).

(** A record with a non-empty ['Tipo'] and a float under
    ['Monto_UYU']. *)
Definition has_kind_and_amount (r : record) : Prop :=
  (exists t, Tipo r = PStr t /\ t <> []) /\
  (exists q, Monto_UYU r = PFloat q).

(** Group [i] is set in [c]; every group set in [c] is set in [c']. *)
Definition bound (c : caps) (i : nat) : Prop := group c i <> None.

Definition keeps (c c' : caps) : Prop := forall i, bound c i -> bound c' i.

(** A computation that does not raise. *)
Definition returns {A : Type} (x : outcome A) : Prop := exists a, x = Ret a.

(** ** Sample statements *)

Definition newline : str := ["010"%char].

Definition netflix_line : str :=
  lit "15 03 24 1234    NETFLIX.COM          3/6        1.500,00".

Definition no_amount_line : str :=
  lit "15 03 24 1234    NETFLIX.COM          3/6".

Definition pagos_line : str :=
  lit "15 03 24 1234    PAGOS VARIOS          1.500,00".

Definition saldo_line : str :=
  lit "15 03 24 1234    SALDO CONTADO     4,00     1.500,00".

Definition saldo_one_amount_line : str :=
  lit "15 03 24 1234    SALDO CONTADO          1.500,00".

Definition saldo_pagos_line : str :=
  lit "15 03 24 PAGOS SALDO CONTADO    4,00    1.500,00".

Definition three_lines : str :=
  lit "15 03 24 1234    NETFLIX.COM          3/6        1.500,00"
  ++ newline
  ++ lit "16 03 24 5678    SPOTIFY                         399,00"
  ++ newline
  ++ lit "SALDO CONTADO                     4.000,00       12,50".

Definition four_lines : str :=
  three_lines ++ newline
  ++ lit "17 03 24 9012    FARMASHOP                     1.250,00".


Definition four_records : list record :=
  Eval vm_compute in
    match transactions (text_lines four_lines) with
    | Ret recs => recs
    | Raise => []
    end.

Definition one_page (text : str) : list page :=
  [ {| extract_table := None; extract_text := Some text |} ].

Definition first_page : page :=
  {| extract_table := None;
     extract_text :=
       Some (lit "15 03 24 1234    NETFLIX.COM          3/6        1.500,00") |}.

Definition second_page : page :=
  {| extract_table := None;
     extract_text :=
       Some (lit "16 03 24 5678    SPOTIFY                         399,00") |}.

Definition statement_frame : text_frame :=
  [ (PStr (lit "Fecha"), [Some (lit "01/02"); Some (lit "02/02")]);
    (PStr (lit "Detalle"), [Some (lit "SUPERMERCADO"); Some (lit "ALQUILER")]);
    (PStr (lit "Monto"), [Some (lit "5"); Some (lit "1.234,56")]) ].



(** A run in which every collaborator answers: the CSV codec writes a
    header and one line per row, and counts lines back. *)
Definition csv_header : str :=
  lit "Fecha,Codigo,Descripcion,Cuotas,Monto_UYU,Monto_USD,Tipo".

Definition demo_world (pages : list page) : world :=
  {| path_exists := fun _ => true;
     pdf_open := fun _ => Ret pages;
     frame_of_tables := fun _ => Ret [];
     to_csv := fun df =>
       csv_header ++ newline
       ++ concat (map (fun _ => lit "row" ++ newline) (seq 0 (nrows df)));
     read_csv_len := fun csv =>
       Ret (length (filter (Ascii.eqb "010") csv) - 1);
     chat := fun _ => Ret (Some (lit "Fecha,Codigo")) |}.

(** ** Shapes of records *)

Definition is_float (v : pyval) : Prop := exists q, v = PFloat q.

Definition is_text (v : pyval) : Prop := exists t, v = PStr t.

(** The four shapes a record can have, by kind. *)
Definition balance_shape (r : record) : Prop :=
  Tipo r = PStr (lit "Saldo") /\
  (Descripcion r = PStr (lit "SALDO ANTERIOR") \/
   Descripcion r = PStr (lit "SALDO FINAL")) /\
  Fecha r = PStr [] /\ Codigo r = PStr [] /\ Cuotas r = PStr [] /\
  is_float (Monto_UYU r) /\ is_float (Monto_USD r).

Definition payment_shape (r : record) : Prop :=
  Tipo r = PStr (lit "Pago") /\
  Descripcion r = PStr (lit "PAGOS") /\
  is_text (Fecha r) /\ Codigo r = PStr [] /\ Cuotas r = PStr [] /\
  is_float (Monto_UYU r) /\ is_float (Monto_USD r).

Definition charge_shape (r : record) : Prop :=
  Tipo r = PStr (lit "Cargo") /\
  Descripcion r = PStr (lit "SEGURO DE VIDA") /\
  Fecha r = PStr [] /\ Codigo r = PStr [] /\ Cuotas r = PStr [] /\
  is_float (Monto_UYU r) /\ is_float (Monto_USD r).

Definition transaction_shape (r : record) : Prop :=
  Tipo r = PStr Transaccion /\
  is_text (Fecha r) /\ is_text (Codigo r) /\ is_text (Descripcion r) /\
  is_text (Cuotas r) /\
  is_float (Monto_UYU r) /\
  (Monto_USD r = PNone \/ is_float (Monto_USD r)).

Definition saldo_record : record :=
  {| Fecha := PStr []; Codigo := PStr [];
     Descripcion := PStr (lit "SALDO FINAL"); Cuotas := PStr [];
     Monto_UYU := PFloat (4 # 1); Monto_USD := PFloat (1500 # 1);
     Tipo := PStr (lit "Saldo") |}.

Definition saldo_anterior_line : str :=
  lit "15 03 24 PAGOS SALDO DEL ESTADO DE CUENTA ANTERIOR  10,00  4,00  1.500,00".

Definition seguro_line : str :=
  lit "SEGURO DE VIDA SOBRE SALDO      35,10      0,45      9,99".

(** ** Records of a text *)

(** What one line contributes to the records. *)
Definition line_records (line : str) : list record :=
  match parse_line line with
  | Ret (Some r) => [r]
  | _ => []
  end.

Definition is_long (line : str) : bool := 20 <=? length (rstrip line).

(** The records of a text, line by line. *)
Definition text_records (text : str) : list record :=
  flat_map line_records (text_lines text).

(** ** The command line *)



Definition echo_world : world :=
  {| path_exists := fun _ => true;
     pdf_open := fun _ => Ret [];
     frame_of_tables := fun _ => Ret [];
     to_csv := fun _ => csv_header ++ newline;
     read_csv_len := fun _ => Ret 0;
     chat := fun text =>
       Ret (Some (lit "  " ++ firstn 3 text ++ lit " ")) |}.

Definition long_text : str := repeat "x"%char (10 * 1000).

(** The records of the text of all pages. *)
Definition page_records (pages : list page) : list record :=
  text_records (full_text pages).

(** A page whose table is a header and whose text is empty, and a
    page without table and text. *)
Definition blank_page : page :=
  {| extract_table := Some [[Some (lit "Fecha"); Some (lit "Monto")]];
     extract_text := Some [] |}.

Definition no_text_page : page :=
  {| extract_table := None; extract_text := None |}.

(** ** Frames by rows *)

(** A frame whose columns all have [n] cells. *)
Definition rectangular (A : Type) (df : list (pyval * list A)) (n : nat)
  : Prop :=
  Forall (fun col => length (snd col) = n) df.

(** The rows of a frame, top to bottom. *)
Definition rows (df : frame) : list (list pyval) :=
  map (row df) (seq 0 (nrows df)).

Definition heads (df : frame) : list pyval :=
  map (fun col => hd PNone (snd col)) df.

Definition tails (df : frame) : frame :=
  map (fun col => (fst col, tl (snd col))) df.

Definition select (keep : list bool) (df : frame) : frame :=
  map (fun col => (fst col, keep_rows keep (snd col))) df.

Definition sparse_frame : text_frame :=
  [ (PStr (lit "Fecha"), [Some (lit "01/02"); None; Some (lit "03/02")]);
    (PStr (lit "Detalle"), [Some (lit "SUPERMERCADO"); None; None]);
    (PStr (lit "Monto"), [Some (lit "5"); Some (lit "abc"); Some (lit "7")]) ].

Definition sparse_frame_cleaned : frame :=
  [ (PStr (lit "Fecha"), [PStr (lit "01/02"); PStr (lit "03/02")]);
    (PStr (lit "Detalle"), [PStr (lit "SUPERMERCADO"); PNone]);
    (PStr (lit "Monto"), [PFloat 5; PFloat 7]) ].

Definition five_row_table : table :=
  [ [Some (lit "Fecha"); Some (lit "Monto")];
    [Some (lit "01/02"); Some (lit "5")];
    [Some (lit "02/02"); Some (lit "6")];
    [Some (lit "03/02"); Some (lit "7")];
    [Some (lit "04/02"); Some (lit "8")];
    [Some (lit "05/02"); Some (lit "9")] ].

Definition five_row_frame : text_frame :=
  [ (PStr (lit "Fecha"),
     [Some (lit "01/02"); Some (lit "02/02"); Some (lit "03/02");
      Some (lit "04/02"); Some (lit "05/02")]);
    (PStr (lit "Monto"),
     [Some (lit "5"); Some (lit "6"); Some (lit "7"); Some (lit "8");
      Some (lit "9")]) ].

Definition five_row_world : world :=
  {| path_exists := fun _ => true;
     pdf_open := fun _ =>
       Ret [ {| extract_table := Some five_row_table;
                extract_text := None |} ];
     frame_of_tables := fun _ => Ret five_row_frame;
     to_csv := fun _ => csv_header ++ newline;
     read_csv_len := fun _ => Ret 0;
     chat := fun _ => Ret None |}.

(** ** Digits and separators *)

Definition is_separator (a : ascii) : bool :=
  is_char "." a || is_char "," a.

(** The integer spelled by the digits of a text, with its sign. *)
Definition digits_as_integer (t : str) : Q :=
  decimal (startswith (lit "-") t) (digits_val (filter is_digit t)) 0.

(** ** Classes of patterns *)

(** Patterns without [^] and [$]. *)
Fixpoint anchor_free (r : regex) : bool :=
  match r with
  | Bol | Eol => false
  | Seq r1 r2 | Alt r1 r2 => anchor_free r1 && anchor_free r2
  | Star _ r1 | Group _ r1 | Look r1 => anchor_free r1
  | _ => true
  end.

(** Patterns without anchors and lookahead: what they match does not
    depend on what follows. *)
Fixpoint plain (r : regex) : bool :=
  match r with
  | Bol | Eol | Look _ => false
  | Seq r1 r2 | Alt r1 r2 => plain r1 && plain r2
  | Star _ r1 | Group _ r1 => plain r1
  | _ => true
  end.

(** ** Amounts of a record *)

(** The amounts of a record built from the tokens [toks]: the last one
    under ['Monto_UYU'], the one before it, if any, under
    ['Monto_USD']. *)
Definition amounts_of (toks : list str) (r : record) : Prop :=
  exists pre tok,
    toks = pre ++ [tok] /\ Monto_UYU r = PFloat (token_value tok) /\
    match rev pre with
    | [] => Monto_USD r = PNone
    | tok2 :: _ => Monto_USD r = PFloat (token_value tok2)
    end.

(** ** Text fields of a record *)

(** Patterns without capturing groups. *)
Fixpoint group_free (r : regex) : bool :=
  match r with
  | Group _ _ => false
  | Seq r1 r2 | Alt r1 r2 => group_free r1 && group_free r2
  | Star _ r1 | Look r1 => group_free r1
  | _ => true
  end.

Definition digits (t : str) : Prop := Forall (fun a => is_digit a = true) t.

(** [dd/dd/dd] *)
Definition is_date (t : str) : Prop :=
  exists dd mm yy,
    t = dd ++ lit "/" ++ mm ++ lit "/" ++ yy /\
    digits dd /\ digits mm /\ digits yy /\
    length dd = 2 /\ length mm = 2 /\ length yy = 2.

(** Four digits, or nothing. *)
Definition is_code (t : str) : Prop :=
  t = [] \/ (digits t /\ length t = 4).

(** [n/m], or nothing. *)
Definition is_installment (t : str) : Prop :=
  t = [] \/
  exists n m, t = n ++ lit "/" ++ m /\ digits n /\ digits m /\
              n <> [] /\ m <> [].

(** The texts a record holds under ['Fecha'], ['Codigo'] and
    ['Cuotas']. *)
Definition well_formed (r : record) : Prop :=
  exists fecha codigo cuotas,
    Fecha r = PStr fecha /\ Codigo r = PStr codigo /\
    Cuotas r = PStr cuotas /\
    (fecha = [] \/ is_date fecha) /\ is_code codigo /\
    is_installment cuotas.

Definition netflix_record : record :=
  {| Fecha := PStr (lit "15/03/24"); Codigo := PStr (lit "1234");
     Descripcion := PStr (lit "NETFLIX.COM"); Cuotas := PStr (lit "3/6");
     Monto_UYU := PFloat (1500 # 1); Monto_USD := PNone;
     Tipo := PStr Transaccion |}.

(** The row of a record in the frame of [parse_text_to_csv]. *)
Definition record_cells (r : record) : list pyval :=
  [Fecha r; Codigo r; Descripcion r; Cuotas r; Monto_UYU r;
   fillna (Monto_USD r); Tipo r].

Definition six_row_table : table :=
  five_row_table ++ [[Some (lit "06/02"); Some (lit "1.234,56")]].

Definition six_row_frame : text_frame :=
  [ (PStr (lit "Fecha"),
     [Some (lit "01/02"); Some (lit "02/02"); Some (lit "03/02");
      Some (lit "04/02"); Some (lit "05/02"); Some (lit "06/02")]);
    (PStr (lit "Monto"),
     [Some (lit "5"); Some (lit "6"); Some (lit "7"); Some (lit "8");
      Some (lit "9"); Some (lit "1.234,56")]) ].

Definition six_row_cleaned : frame :=
  [ (PStr (lit "Fecha"),
     [PStr (lit "01/02"); PStr (lit "02/02"); PStr (lit "03/02");
      PStr (lit "04/02"); PStr (lit "05/02"); PStr (lit "06/02")]);
    (PStr (lit "Monto"),
     [PFloat 5; PFloat 6; PFloat 7; PFloat 8; PFloat 9; PFloat 123456]) ].

(** A run whose one page holds [six_row_table]; the text of the page
    would give four records. *)
Definition six_row_world : world :=
  {| path_exists := fun _ => true;
     pdf_open := fun _ =>
       Ret [ {| extract_table := Some six_row_table;
                extract_text := Some four_lines |} ];
     frame_of_tables := fun _ => Ret six_row_frame;
     to_csv := fun df =>
       lit "rows:" ++ concat (map (fun _ => lit "*") (seq 0 (nrows df)));
     read_csv_len := fun _ => Ret 4;
     chat := fun _ => Ret None |}.

(** ** The CSV codec on frames of records

    What [df.to_csv(index=False)] writes for a frame and how many rows
    [pd.read_csv] finds in a text, in enough detail to follow the
    frames [parse_text_to_csv] writes: their text cells hold no line
    feed, and only a description can hold a comma, a quote or a
    carriage return. *)
























(** * Properties *)

(** ** The matcher is sound for the relational reading *)

Lemma star_loop_sound (R : Type) body g (k : str -> caps -> option R) r :
  (forall s c k' x, body s c k' = Some x ->
     exists s1 c1, matches r s s1 /\ k' s1 c1 = Some x) ->
  forall fuel s c x, star_loop body g k fuel s c = Some x ->
     exists s' c', matches (Star g r) s s' /\ k s' c' = Some x.
Proof.
  intros Hbody fuel; induction fuel as [|f IH]; intros s c x H; simpl in H.
  - exists s, c; split; [constructor | exact H].
  - assert (Hagain : forall y,
      body s c (fun s1 c1 => if length s1 <? length s
                             then star_loop body g k f s1 c1 else None) = Some y ->
      exists s' c', matches (Star g r) s s' /\ k s' c' = Some y).
    { intros y Hy. apply Hbody in Hy. destruct Hy as (s1 & c1 & Hm & Hk).
      destruct (length s1 <? length s); [|discriminate].
      apply IH in Hk. destruct Hk as (s' & c' & Hs & Hk).
      exists s', c'; split; [eapply M_StarS; eauto | exact Hk]. }
    destruct g.
    + destruct (body s c _) as [y|].
      * inversion H; subst. apply Hagain. reflexivity.
      * exists s, c; split; [constructor | exact H].
    + destruct (k s c) as [y|] eqn:E.
      * inversion H; subst. exists s, c; split; [constructor | exact E].
      * apply Hagain. exact H.
Qed.

Lemma rmatch_sound (R : Type) n r :
  forall s c (k : str -> caps -> option R) x,
    rmatch n r s c k = Some x ->
    exists s' c', matches r s s' /\ k s' c' = Some x.
Proof.
  revert R. induction r; intros R s c k x H; simpl in H.
  - exists s, c; split; [constructor | exact H].
  - destruct s as [|a s']; [discriminate|].
    destruct (p a) eqn:E; [|discriminate].
    exists s', c; split; [constructor; exact E | exact H].
  - apply IHr1 in H. destruct H as (s1 & c1 & H1 & H).
    apply IHr2 in H. destruct H as (s2 & c2 & H2 & H).
    exists s2, c2; split; [econstructor; eauto | exact H].
  - destruct (rmatch n r1 s c k) as [y|] eqn:E.
    + inversion H; subst. apply IHr1 in E. destruct E as (s1 & c1 & H1 & E).
      exists s1, c1; split; [apply M_AltL; exact H1 | exact E].
    + apply IHr2 in H. destruct H as (s1 & c1 & H1 & E').
      exists s1, c1; split; [apply M_AltR; exact H1 | exact E'].
  - eapply star_loop_sound; [|exact H]. intros. eapply IHr; eauto.
  - apply IHr in H. destruct H as (s1 & c1 & H1 & H).
    eexists; eexists; split; [apply M_Group; exact H1 | exact H].
  - destruct (rmatch n r s c _) as [c1|] eqn:E; [|discriminate].
    apply IHr in E. destruct E as (s1 & c2 & H1 & _).
    exists s, c1; split; [eapply M_Look; eauto | exact H].
  - destruct (length s =? n); [|discriminate].
    exists s, c; split; [constructor | exact H].
  - exists s.
    destruct s as [|a [|b t]]; try discriminate.
    + exists c; split; [constructor | exact H].
    + destruct (is_char "010" a); [|discriminate].
      exists c; split; [constructor | exact H].
Qed.

(** Character classes *)
Ltac by_cases_on_char a :=
  destruct a as [[|] [|] [|] [|] [|] [|] [|] [|]]; vm_compute;
  try discriminate; try reflexivity; auto.

Lemma digit_not_space a : is_digit a = true -> is_space a = false.
Proof. by_cases_on_char a. Qed.

Lemma digit_not_punct a :
  is_digit a = true ->
  is_char "." a = false /\ is_char "," a = false /\
  is_char "-" a = false /\ is_char "+" a = false.
Proof. by_cases_on_char a. Qed.

Lemma is_char_eq c a : is_char c a = true -> a = c.
Proof. unfold is_char. apply Ascii.eqb_eq. Qed.

(** Strings *)
Lemma lstrip_id a s : is_space a = false -> lstrip (a :: s) = a :: s.
Proof. intros H; simpl; rewrite H; reflexivity. Qed.

Lemma rstrip_id s a : is_space a = false -> rstrip (s ++ [a]) = s ++ [a].
Proof.
  intros H. unfold rstrip. rewrite rev_app_distr. simpl.
  rewrite H. simpl. rewrite rev_involutive. reflexivity.
Qed.

Lemma replace_char c new s :
  replace [c] new s = flat_map (subst_char c new) s.
Proof.
  unfold replace, subst_char. induction s as [|a s IH]; simpl; [reflexivity|].
  rewrite andb_true_r. destruct (Ascii.eqb c a); rewrite IH; reflexivity.
Qed.

Lemma span_app p u v :
  Forall (fun a => p a = true) u ->
  match v with [] => True | b :: _ => p b = false end ->
  span p (u ++ v) = (u, v).
Proof.
  intros Hu Hv. induction Hu as [|a u Ha Hu IH]; simpl.
  - destruct v as [|b v]; simpl; [reflexivity|]. rewrite Hv. reflexivity.
  - rewrite Ha, IH. reflexivity.
Qed.

(** Shape of what a pattern consumes *)
Lemma matches_star_ind g r (P : str -> str -> Prop) :
  (forall s, P s s) ->
  (forall s s1 s2, matches r s s1 -> P s1 s2 -> P s s2) ->
  forall s s', matches (Star g r) s s' -> P s s'.
Proof.
  intros H0 HS s s' H. remember (Star g r) as q eqn:Eq.
  induction H; inversion Eq; subst; eauto.
Qed.

Ltac inv H := inversion H; subst; clear H.

Lemma matches_star_chr g p s s' :
  matches (Star g (Chr p)) s s' ->
  exists u, s = u ++ s' /\ Forall (fun a => p a = true) u.
Proof.
  apply matches_star_ind
    with (P := fun s s' => exists u, s = u ++ s' /\
                             Forall (fun a => p a = true) u).
  - intros t. exists []. split; [reflexivity | constructor].
  - intros t t1 t2 H1 (u & -> & Hu). inv H1.
    exists (a :: u). split; [reflexivity | constructor; assumption].
Qed.

Lemma inv_eps s s' : matches Eps s s' -> s = s'.
Proof. intros H; inv H; reflexivity. Qed.

Lemma inv_chr p s s' :
  matches (Chr p) s s' -> exists a, s = a :: s' /\ p a = true.
Proof. intros H; inv H; eauto. Qed.

Lemma inv_seq r1 r2 s s' :
  matches (Seq r1 r2) s s' ->
  exists s1, matches r1 s s1 /\ matches r2 s1 s'.
Proof. intros H; inv H; eauto. Qed.

Lemma inv_alt r1 r2 s s' :
  matches (Alt r1 r2) s s' -> matches r1 s s' \/ matches r2 s s'.
Proof. intros H; inv H; auto. Qed.

Lemma inv_group i r s s' : matches (Group i r) s s' -> matches r s s'.
Proof. intros H; inv H; auto. Qed.

Lemma inv_look r s s' :
  matches (Look r) s s' -> s = s' /\ exists s1, matches r s s1.
Proof. intros H; inv H; eauto. Qed.

Lemma inv_bol s s' : matches Bol s s' -> s = s'.
Proof. intros H; inv H; reflexivity. Qed.

Lemma inv_opt_chr p s s' :
  matches (Opt (Chr p)) s s' ->
  s = s' \/ exists a, s = a :: s' /\ p a = true.
Proof.
  intros H. apply inv_alt in H. destruct H as [H|H].
  - right. apply inv_chr. exact H.
  - left. apply inv_eps. exact H.
Qed.

Lemma inv_plus_chr p s s' :
  matches (Plus (Chr p)) s s' ->
  exists a u, s = a :: u ++ s' /\ p a = true /\
              Forall (fun b => p b = true) u.
Proof.
  intros H. apply inv_seq in H. destruct H as (s1 & H1 & H2).
  apply inv_chr in H1. destruct H1 as (a & -> & Ha).
  apply matches_star_chr in H2. destruct H2 as (u & -> & Hu).
  eauto.
Qed.

Lemma inv_two p s s' :
  matches (Times 2 (Chr p)) s s' ->
  exists a b, s = a :: b :: s' /\ p a = true /\ p b = true.
Proof.
  intros H. apply inv_seq in H. destruct H as (s1 & H1 & H2).
  apply inv_chr in H1. destruct H1 as (a & -> & Ha).
  apply inv_chr in H2. destruct H2 as (b & -> & Hb).
  eauto.
Qed.

Lemma inv_three p s s' :
  matches (Times 3 (Chr p)) s s' ->
  exists a b c, s = a :: b :: c :: s' /\
                p a = true /\ p b = true /\ p c = true.
Proof.
  intros H. apply inv_seq in H. destruct H as (s1 & H1 & H2).
  apply inv_chr in H1. destruct H1 as (a & -> & Ha).
  apply inv_two in H2. destruct H2 as (b & c & -> & Hb & Hc).
  exists a, b, c. auto.
Qed.

Lemma inv_thousands g s s' :
  matches (Star g (Chr (is_char ".") >> Times 3 d)) s s' ->
  exists gs, s = gs ++ s' /\ Forall digit_or_dot gs.
Proof.
  apply matches_star_ind
    with (P := fun s t => exists gs, s = gs ++ t /\
                            Forall digit_or_dot gs).
  - intros t. exists []. split; [reflexivity | constructor].
  - intros t t1 t2 H1 (u & -> & Hu).
    apply inv_seq in H1. destruct H1 as (t3 & H1 & H2).
    apply inv_chr in H1. destruct H1 as (a & -> & Ha).
    apply is_char_eq in Ha. subst a.
    apply inv_three in H2. destruct H2 as (a & b & c & -> & Ha & Hb & Hc).
    exists ("."%char :: a :: b :: c :: u). split; [reflexivity|].
    apply Forall_cons; [right; reflexivity|].
    apply Forall_cons; [left; exact Ha|].
    apply Forall_cons; [left; exact Hb|].
    apply Forall_cons; [left; exact Hc|]. exact Hu.
Qed.

Lemma num_pattern_shape s s' :
  matches num_pattern s s' ->
  exists (neg : bool) d0 body d1 d2,
    s = minus_sign neg ++ d0 :: body
          ++ ","%char :: d1 :: d2 :: s' /\
    is_digit d0 = true /\ Forall digit_or_dot body /\
    is_digit d1 = true /\ is_digit d2 = true.
Proof.
  unfold num_pattern. intros H.
  apply inv_seq in H. destruct H as (s1 & Hsign & H).
  apply inv_seq in H. destruct H as (s2 & Hint & H).
  apply inv_seq in H. destruct H as (s3 & Hgrp & H).
  apply inv_seq in H. destruct H as (s4 & Hcomma & Hdec).
  apply inv_chr in Hcomma. destruct Hcomma as (a & -> & Ha).
  apply is_char_eq in Ha. subst a.
  apply inv_two in Hdec. destruct Hdec as (d1 & d2 & -> & Hd1 & Hd2).
  apply inv_thousands in Hgrp. destruct Hgrp as (gs & -> & Hgs).
  apply inv_plus_chr in Hint. destruct Hint as (d0 & ds & -> & Hd0 & Hds).
  assert (Hbody : Forall digit_or_dot (ds ++ gs)).
  { apply Forall_app; split; [|exact Hgs].
    eapply Forall_impl; [|exact Hds]. intros; left; assumption. }
  apply inv_opt_chr in Hsign. destruct Hsign as [->|(a & -> & Ha)].
  - exists false, d0, (ds ++ gs), d1, d2. rewrite <- app_assoc. simpl. auto.
  - apply is_char_eq in Ha. subst a.
    exists true, d0, (ds ++ gs), d1, d2. rewrite <- app_assoc. simpl. auto.
Qed.

Lemma strip_id a s b :
  is_space a = false -> is_space b = false ->
  strip (a :: s ++ [b]) = a :: s ++ [b].
Proof.
  intros Ha Hb. unfold strip. rewrite lstrip_id by exact Ha.
  rewrite app_comm_cons. apply rstrip_id. exact Hb.
Qed.

Lemma float_two_decimals neg d0 ds d1 d2 :
  Forall (fun a => is_digit a = true) (d0 :: ds) ->
  is_digit d1 = true -> is_digit d2 = true ->
  float (minus_sign neg ++ (d0 :: ds) ++ "."%char :: [d1; d2]) =
  Ret (decimal neg (digits_val ((d0 :: ds) ++ [d1; d2])) (-2)).
Proof.
  intros Hds Hd1 Hd2.
  assert (Hd0 : is_digit d0 = true) by (inversion Hds; assumption).
  unfold float.
  assert (Hstrip : strip (minus_sign neg ++ (d0 :: ds) ++ "."%char :: [d1; d2])
                   = minus_sign neg ++ (d0 :: ds) ++ "."%char :: [d1; d2]).
  { destruct neg; simpl.
    - replace (d0 :: ds ++ ["."%char; d1; d2])
        with ((d0 :: ds ++ ["."%char; d1]) ++ [d2])
        by (simpl; rewrite <- app_assoc; reflexivity).
      apply strip_id; [reflexivity | apply digit_not_space; exact Hd2].
    - replace (ds ++ ["."%char; d1; d2])
        with ((ds ++ ["."%char; d1]) ++ [d2])
        by (rewrite <- app_assoc; reflexivity).
      apply strip_id; apply digit_not_space; assumption. }
  rewrite Hstrip.
  assert (Hsign : sign_of (minus_sign neg ++ (d0 :: ds) ++ "."%char :: [d1; d2])
                  = (neg, (d0 :: ds) ++ "."%char :: [d1; d2])).
  { destruct neg; simpl; [reflexivity|].
    destruct (digit_not_punct _ Hd0) as (_ & _ & Hm & Hp).
    rewrite Hm, Hp. reflexivity. }
  rewrite Hsign.
  rewrite (span_app is_digit ("."%char :: [d1; d2]) Hds) by reflexivity.
  cbn [is_char Ascii.eqb]. 
  change (is_char "." "."%char) with true. cbv iota.
  assert (Hfp : span is_digit [d1; d2] = ([d1; d2], [])).
  { simpl. rewrite Hd1, Hd2. reflexivity. }
  rewrite Hfp. simpl app. reflexivity.
Qed.

Lemma drop_dot_digit a : is_digit a = true -> drop_dot a = [a].
Proof. unfold drop_dot, subst_char. by_cases_on_char a. Qed.

Lemma comma_to_dot_digit a : is_digit a = true -> comma_to_dot a = [a].
Proof. unfold comma_to_dot, subst_char. by_cases_on_char a. Qed.

Lemma drop_dot_body body :
  Forall digit_or_dot body ->
  flat_map drop_dot body = filter is_digit body /\
  Forall (fun a => is_digit a = true) (filter is_digit body).
Proof.
  induction 1 as [|a body [Ha| ->] _ [IH1 IH2]]; simpl.
  - split; [reflexivity | constructor].
  - rewrite Ha, drop_dot_digit, IH1 by exact Ha. simpl.
    split; [reflexivity | constructor; assumption].
  - rewrite IH1. split; [reflexivity | exact IH2].
Qed.

Lemma comma_to_dot_digits u :
  Forall (fun a => is_digit a = true) u -> flat_map comma_to_dot u = u.
Proof.
  induction 1 as [|a u Ha _ IH]; simpl; [reflexivity|].
  rewrite comma_to_dot_digit, IH by exact Ha. reflexivity.
Qed.

Lemma filter_digits_id u :
  Forall (fun a => is_digit a = true) u -> filter is_digit u = u.
Proof.
  induction 1 as [|a u Ha _ IH]; simpl; [reflexivity|].
  rewrite Ha, IH. reflexivity.
Qed.

Lemma digit_not_minus a s :
  is_digit a = true -> startswith (lit "-") (a :: s) = false.
Proof. by_cases_on_char a. Qed.

(** The value of a token of the shape [num_pattern] accepts. *)
Lemma amount_of_shape neg d0 body d1 d2 :
  is_digit d0 = true -> Forall digit_or_dot body ->
  is_digit d1 = true -> is_digit d2 = true ->
  let tok := minus_sign neg ++ d0 :: body ++ [","%char; d1; d2] in
  startswith (lit "-") tok = neg /\
  amount tok = Ret (decimal neg (digits_val (filter is_digit tok)) (-2)).
Proof.
  intros Hd0 Hbody Hd1 Hd2 tok.
  destruct (drop_dot_body Hbody) as [Hdrop Hdigs].
  destruct (digit_not_punct _ Hd0) as (_ & _ & Hm & _).
  split.
  - subst tok. destruct neg; [reflexivity|].
    apply digit_not_minus. exact Hd0.
  - assert (Hfilter : filter is_digit tok
                      = (d0 :: filter is_digit body) ++ [d1; d2]).
    { subst tok. rewrite filter_app. simpl. rewrite filter_app. simpl.
      rewrite Hd0, Hd1, Hd2. destruct neg; reflexivity. }
    rewrite Hfilter. unfold amount.
    change (lit ".") with ["."%char]. change (lit ",") with [","%char].
    rewrite !replace_char.
    fold drop_dot. fold comma_to_dot.
    assert (Hs : flat_map drop_dot (minus_sign neg) = minus_sign neg)
      by (destruct neg; reflexivity).
    assert (Hs2 : flat_map comma_to_dot (minus_sign neg) = minus_sign neg)
      by (destruct neg; reflexivity).
    assert (H1 : flat_map drop_dot tok
                 = minus_sign neg ++ (d0 :: filter is_digit body)
                     ++ [","%char; d1; d2]).
    { subst tok. rewrite flat_map_app, Hs. f_equal.
      cbn [flat_map]. rewrite flat_map_app, Hdrop, (drop_dot_digit _ Hd0).
      cbn [flat_map]. rewrite (drop_dot_digit _ Hd1), (drop_dot_digit _ Hd2).
      reflexivity. }
    rewrite H1.
    assert (H2 : flat_map comma_to_dot
                   (minus_sign neg ++ (d0 :: filter is_digit body)
                      ++ [","%char; d1; d2])
                 = minus_sign neg ++ (d0 :: filter is_digit body)
                     ++ "."%char :: [d1; d2]).
    { rewrite flat_map_app, Hs2. f_equal.
      rewrite flat_map_app.
      rewrite (@comma_to_dot_digits (d0 :: filter is_digit body))
        by (constructor; assumption).
      f_equal. cbn [flat_map].
      rewrite (comma_to_dot_digit _ Hd1), (comma_to_dot_digit _ Hd2).
      reflexivity. }
    rewrite H2.
    apply float_two_decimals; auto.
Qed.

(** ** What a successful match leaves, and when it succeeds *)

Lemma matches_split r s s' : matches r s s' -> exists u, s = u ++ s'.
Proof.
  induction 1;
    repeat match goal with
           | H : exists _, _ |- _ => destruct H as [? H]; subst
           end;
    try (exists []; reflexivity).
  - exists [a]; reflexivity.
  - eexists. rewrite app_assoc. reflexivity.
  - eexists; reflexivity.
  - eexists; reflexivity.
  - eexists. rewrite app_assoc. reflexivity.
  - eexists; reflexivity.
Qed.

Lemma match_at_sound n r s rest c :
  match_at n r s = Some (rest, c) -> matches r s rest.
Proof.
  unfold match_at. intros H. apply rmatch_sound in H.
  destruct H as (s' & c' & Hm & E). inversion E; subst. exact Hm.
Qed.

Lemma rmatch_seq_sound (R : Type) n r1 r2 s c
      (k : str -> caps -> option R) x :
  rmatch n (r1 >> r2) s c k = Some x ->
  exists s1 c1, matches r1 s s1 /\ rmatch n r2 s1 c1 k = Some x.
Proof. simpl. apply rmatch_sound. Qed.

Lemma firstn_matched (u rest : str) :
  firstn (length (u ++ rest) - length rest) (u ++ rest) = u.
Proof.
  rewrite length_app, Nat.add_sub.
  rewrite firstn_app, Nat.sub_diag, firstn_all. simpl.
  apply app_nil_r.
Qed.

Lemma star_loop_succ (R R' : Type)
      (body : str -> caps -> (str -> caps -> option R) -> option R)
      (body' : str -> caps -> (str -> caps -> option R') -> option R')
      g (k : str -> caps -> option R) (k' : str -> caps -> option R') :
  (forall s c c' (j : str -> caps -> option R)
          (j' : str -> caps -> option R'),
      (forall t e e', is_some (j t e) = true -> is_some (j' t e') = true) ->
      is_some (body s c j) = true -> is_some (body' s c' j') = true) ->
  (forall t e e', is_some (k t e) = true -> is_some (k' t e') = true) ->
  forall fuel s c c',
    is_some (star_loop body g k fuel s c) = true ->
    is_some (star_loop body' g k' fuel s c') = true.
Proof.
  intros Hbody Hk fuel. induction fuel as [|f IH]; intros s c c' H; simpl in *.
  - eapply Hk; eauto.
  - set (again := fun s1 c1 => if length s1 <? length s
                               then star_loop body g k f s1 c1 else None) in *.
    set (again' := fun s1 c1 => if length s1 <? length s
                                then star_loop body' g k' f s1 c1 else None).
    assert (Hagain : forall t e e', is_some (again t e) = true ->
                                    is_some (again' t e') = true).
    { intros t e e'. unfold again, again'.
      destruct (length t <? length s); [apply IH | discriminate]. }
    assert (Hb := Hbody s c c' again again' Hagain).
    assert (Hk0 := Hk s c c').
    destruct g.
    + destruct (body s c again) as [y|].
      * destruct (body' s c' again'); [reflexivity|].
        specialize (Hb eq_refl). discriminate.
      * destruct (body' s c' again'); [reflexivity | auto].
    + destruct (k s c) as [y|].
      * destruct (k' s c'); [reflexivity|].
        specialize (Hk0 eq_refl). discriminate.
      * destruct (k' s c'); [reflexivity | auto].
Qed.

Lemma rmatch_succ n n' r :
  no_bol r = true \/ n = n' ->
  forall (R R' : Type) s c c'
         (k : str -> caps -> option R) (k' : str -> caps -> option R'),
    (forall t e e', is_some (k t e) = true -> is_some (k' t e') = true) ->
    is_some (rmatch n r s c k) = true ->
    is_some (rmatch n' r s c' k') = true.
Proof.
  induction r; intros Hn R R' s c c' k k' Hk H; simpl in *.
  - eapply Hk; eauto.
  - destruct s as [|a s']; [discriminate|].
    destruct (p a); [eapply Hk; eauto | discriminate].
  - assert (H1 : no_bol r1 = true \/ n = n')
      by (destruct Hn as [Hn|Hn]; [apply andb_prop in Hn; tauto | tauto]).
    assert (H2 : no_bol r2 = true \/ n = n')
      by (destruct Hn as [Hn|Hn]; [apply andb_prop in Hn; tauto | tauto]).
    eapply (IHr1 H1); [|exact H].
    intros t e e'. apply (IHr2 H2). exact Hk.
  - assert (H1 : no_bol r1 = true \/ n = n')
      by (destruct Hn as [Hn|Hn]; [apply andb_prop in Hn; tauto | tauto]).
    assert (H2 : no_bol r2 = true \/ n = n')
      by (destruct Hn as [Hn|Hn]; [apply andb_prop in Hn; tauto | tauto]).
    assert (A1 := IHr1 H1 R R' s c c' k k' Hk).
    assert (A2 := IHr2 H2 R R' s c c' k k' Hk).
    destruct (rmatch n r1 s c k).
    + destruct (rmatch n' r1 s c' k'); [reflexivity|].
      specialize (A1 eq_refl). discriminate.
    + destruct (rmatch n' r1 s c' k'); [reflexivity | auto].
  - eapply star_loop_succ; [| exact Hk | exact H].
    intros t e e' j j' Hj. apply IHr; assumption.
  - eapply (IHr Hn); [|exact H].
    intros t e e'. apply Hk.
  - assert (A := IHr Hn caps caps s c c'
                     (fun _ c1 => Some c1) (fun _ c1 => Some c1)
                     (fun _ _ _ _ => eq_refl)).
    destruct (rmatch n r s c (fun _ c1 => Some c1)); [|discriminate].
    destruct (rmatch n' r s c' (fun _ c1 => Some c1));
      [| specialize (A eq_refl); discriminate].
    eapply Hk; eauto.
  - destruct Hn as [Hn| ->]; [discriminate|].
    destruct (length s =? n'); [eapply Hk; eauto | discriminate].
  - destruct s as [|a [|b t]]; try discriminate.
    + eapply Hk; eauto.
    + destruct (is_char "010" a); [eapply Hk; eauto | discriminate].
Qed.

(** [findall] *)
Lemma findall_from_in n r s :
  forall skip tok,
    In tok (findall_from n r skip s) ->
    exists p t m,
      s = p ++ t /\ skip <= length p /\ match_at n r t = Some m /\
      tok = firstn (length t - length (fst m)) t.
Proof.
  induction s as [|a s IH]; intros skip tok H; simpl in H.
  - destruct skip; [|contradiction].
    destruct (match_at n r []) as [m|] eqn:E; [|contradiction].
    destruct H as [<-|[]]. exists [], [], m. repeat split; auto.
  - destruct skip as [|j].
    + destruct (match_at n r (a :: s)) as [[rest c]|] eqn:E.
      * destruct H as [<-|H].
        -- exists [], (a :: s), (rest, c). repeat split; auto; simpl; lia.
        -- apply IH in H. destruct H as (p & t & m & -> & _ & Hm & ->).
           exists (a :: p), t, m. repeat split; auto; simpl; lia.
      * apply IH in H. destruct H as (p & t & m & -> & _ & Hm & ->).
        exists (a :: p), t, m. repeat split; auto; simpl; lia.
    + apply IH in H. destruct H as (p & t & m & -> & Hj & Hm & ->).
      exists (a :: p), t, m. repeat split; auto; simpl; lia.
Qed.

Lemma findall_from_nil n r s :
  findall_from n r 0 s = [] ->
  forall p t, s = p ++ t -> match_at n r t = None.
Proof.
  induction s as [|a s IH]; intros H p t E; simpl in H.
  - symmetry in E. apply app_eq_nil in E. destruct E as [-> ->].
    destruct (match_at n r []); [discriminate | reflexivity].
  - destruct (match_at n r (a :: s)) as [[rest c]|] eqn:Em; [discriminate|].
    destruct p as [|b p]; simpl in E.
    + subst t. exact Em.
    + inversion E; subst. eapply IH; eauto.
Qed.

(** Every token [findall] returns for [num_pattern] has a value. *)
Lemma token_amount n skip s tok :
  In tok (findall_from n num_pattern skip s) ->
  amount tok = Ret (decimal (startswith (lit "-") tok)
                            (digits_val (filter is_digit tok)) (-2)).
Proof.
  intros H. apply findall_from_in in H.
  destruct H as (p & t & [rest c] & _ & _ & Hm & ->). simpl fst.
  apply match_at_sound in Hm. apply num_pattern_shape in Hm.
  destruct Hm as (neg & d0 & body & d1 & d2 & -> & Hd0 & Hb & Hd1 & Hd2).
  replace (minus_sign neg ++ d0 :: body ++ ","%char :: d1 :: d2 :: rest)
    with ((minus_sign neg ++ d0 :: body ++ [","%char; d1; d2]) ++ rest)
    by (rewrite <- app_assoc; simpl; rewrite <- app_assoc; reflexivity).
  rewrite firstn_matched.
  destruct (@amount_of_shape neg d0 body d1 d2 Hd0 Hb Hd1 Hd2) as [-> ->]. reflexivity.
Qed.

(** ** The date head *)

Lemma lstrip_app w a t :
  Forall (fun b => is_space b = true) w -> is_space a = false ->
  lstrip (w ++ a :: t) = a :: t.
Proof.
  intros Hw Ha. induction Hw as [|b w Hb _ IH]; simpl.
  - rewrite Ha. reflexivity.
  - rewrite Hb. exact IH.
Qed.

Lemma space_not_comma a : is_space a = true -> a <> ","%char.
Proof. intros H ->. discriminate. Qed.

Lemma digit_not_comma a : is_digit a = true -> a <> ","%char.
Proof. intros H ->. discriminate. Qed.

Lemma spaces_not_comma w :
  Forall (fun b => is_space b = true) w -> Forall not_comma w.
Proof. apply Forall_impl. exact space_not_comma. Qed.

Lemma date_pattern_shape s rest :
  matches date_pattern s rest ->
  exists a b t, s = a :: b :: t /\ is_digit a = true /\ is_digit b = true /\
    rest = skipn 2 (lstrip (skipn 2 (lstrip t))) /\
    exists pre, t = pre ++ rest /\ Forall not_comma pre.
Proof.
  unfold date_pattern. intros H.
  apply inv_seq in H. destruct H as (s1 & H1 & H).
  apply inv_seq in H. destruct H as (s2 & Hw1 & H).
  apply inv_seq in H. destruct H as (s3 & H2 & H).
  apply inv_seq in H. destruct H as (s4 & Hw2 & H3).
  apply inv_group, inv_two in H1. destruct H1 as (a & b & -> & Ha & Hb).
  apply inv_group, inv_two in H2. destruct H2 as (c & d & -> & Hc & Hd).
  apply inv_group, inv_two in H3. destruct H3 as (e & f & -> & He & Hf).
  apply inv_plus_chr in Hw1. destruct Hw1 as (x & w1 & -> & Hx & Hw1).
  apply inv_plus_chr in Hw2. destruct Hw2 as (y & w2 & -> & Hy & Hw2).
  exists a, b, (x :: w1 ++ c :: d :: y :: w2 ++ e :: f :: rest).
  repeat split; auto.
  - cbn [lstrip]. rewrite Hx.
    rewrite (@lstrip_app w1 c _ Hw1 (digit_not_space _ Hc)).
    cbn [skipn lstrip]. rewrite Hy.
    rewrite (@lstrip_app w2 e _ Hw2 (digit_not_space _ He)).
    reflexivity.
  - exists ((x :: w1) ++ c :: d :: (y :: w2) ++ [e; f]). split.
    + simpl. rewrite <- !app_assoc. simpl. rewrite <- !app_assoc. reflexivity.
    + apply Forall_app. split.
      * apply spaces_not_comma. constructor; assumption.
      * apply Forall_cons; [apply digit_not_comma; exact Hc|].
        apply Forall_cons; [apply digit_not_comma; exact Hd|].
        apply Forall_app. split.
        -- apply spaces_not_comma. constructor; assumption.
        -- apply Forall_cons; [apply digit_not_comma; exact He|].
           apply Forall_cons; [apply digit_not_comma; exact Hf|].
           constructor.
Qed.

Lemma date_prefix_shape line rest :
  matches date_prefix line rest ->
  rest = after_date line /\
  exists pre, line = pre ++ rest /\ Forall not_comma pre.
Proof.
  unfold date_prefix. intros H.
  apply inv_seq in H. destruct H as (s1 & H0 & H).
  apply inv_bol in H0. subst s1.
  apply inv_seq in H. destruct H as (s2 & Hw & H).
  apply matches_star_chr in Hw. destruct Hw as (w0 & -> & Hw0).
  apply date_pattern_shape in H.
  destruct H as (a & b & t & -> & Ha & Hb & Hrest & pre & Ht & Hpre).
  split.
  - unfold after_date.
    rewrite (@lstrip_app w0 a _ Hw0 (digit_not_space _ Ha)).
    exact Hrest.
  - exists (w0 ++ a :: b :: pre). split.
    + rewrite Ht at 1. rewrite <- app_assoc. reflexivity.
    + apply Forall_app. split; [apply spaces_not_comma; exact Hw0|].
      apply Forall_cons; [apply digit_not_comma; exact Ha|].
      apply Forall_cons; [apply digit_not_comma; exact Hb|]. exact Hpre.
Qed.

(** Two suffixes of one string: the shorter is a suffix of the longer. *)
Lemma suffix_of_suffix (p1 t1 p2 t2 : str) :
  p1 ++ t1 = p2 ++ t2 -> length p2 <= length p1 ->
  exists q, t2 = q ++ t1.
Proof.
  revert p2. induction p1 as [|a p1 IH]; intros p2 E Hl.
  - destruct p2; [|simpl in Hl; lia]. exists []. simpl in E. auto.
  - destruct p2 as [|b p2].
    + exists (a :: p1). simpl in E. auto.
    + simpl in E, Hl. inversion E; subst. apply (IH p2); [assumption | lia].
Qed.

(** After a first token, any later one is found in what the first
    left unread. *)
Lemma findall_second n r s :
  2 <= length (findall_from n r 0 s) ->
  exists p1 t1 rest1 c1 q t2 m2,
    s = p1 ++ t1 /\ match_at n r t1 = Some (rest1, c1) /\
    rest1 = q ++ t2 /\ match_at n r t2 = Some m2.
Proof.
  induction s as [|a s IH]; intros H; cbn [findall_from] in H.
  - destruct (match_at n r []); simpl in H; lia.
  - destruct (match_at n r (a :: s)) as [[rest1 c1]|] eqn:E.
    + destruct (findall_from n r (length (a :: s) - length rest1 - 1) s)
        as [|tok toks] eqn:F; [simpl in H; lia|].
      assert (Hin : In tok (findall_from n r
                              (length (a :: s) - length rest1 - 1) s))
        by (rewrite F; left; reflexivity).
      apply findall_from_in in Hin.
      destruct Hin as (p & t & m & Hs & Hskip & Hm & _).
      destruct (matches_split (match_at_sound _ _ _ E)) as (u & Hu).
      assert (Hq : exists q, rest1 = q ++ t).
      { apply (@suffix_of_suffix (a :: p) t u rest1).
        - simpl. rewrite <- Hs. exact Hu.
        - rewrite Hu in Hskip. rewrite length_app in Hskip.
          simpl. lia. }
      destruct Hq as (q & Hq).
      exists [], (a :: s), rest1, c1, q, t, m. auto.
    + apply IH in H.
      destruct H as (p1 & t1 & rest1 & c1 & q & t2 & m2 & -> & H1 & H2 & H3).
      exists (a :: p1), t1, rest1, c1, q, t2, m2. auto.
Qed.

Lemma num_pattern_no_bol : no_bol num_pattern = true.
Proof. reflexivity. Qed.

(** A success of [num_pattern] anywhere in [rest] shows in [findall]. *)
Lemma findall_none_no_match (R : Type) n rest q t c
      (k : str -> caps -> option R) :
  re_findall num_pattern rest = [] -> rest = q ++ t ->
  (forall t' e, is_some (k t' e) = true) ->
  rmatch n num_pattern t c k = None.
Proof.
  intros Hnil Hq Hk.
  assert (Hnone := @findall_from_nil _ _ _ Hnil q t Hq).
  destruct (rmatch n num_pattern t c k) eqn:E; [|reflexivity].
  assert (Hs : is_some (match_at (length rest) num_pattern t) = true).
  { unfold match_at.
    apply (@rmatch_succ n (length rest) num_pattern
             (or_introl num_pattern_no_bol) R (str * caps)%type t c [] k).
    - intros; reflexivity.
    - rewrite E. reflexivity. }
  rewrite Hnone in Hs. discriminate.
Qed.

Lemma comma_in_token s rest :
  matches num_pattern s rest ->
  exists u v, s = u ++ ","%char :: v ++ rest.
Proof.
  intros H. apply num_pattern_shape in H.
  destruct H as (neg & d0 & body & d1 & d2 & -> & _).
  exists (minus_sign neg ++ d0 :: body), [d1; d2].
  rewrite <- app_assoc. reflexivity.
Qed.

(** A line with a date head and no token after it has at most one
    token in all. *)
Lemma few_tokens line rest c :
  re_match date_prefix line = Some (rest, c) ->
  re_findall num_pattern rest = [] ->
  length (re_findall num_pattern line) < 2.
Proof.
  intros Hd Hnil.
  destruct (le_lt_dec 2 (length (re_findall num_pattern line)))
    as [H|H]; [exfalso | exact H].
  apply match_at_sound, date_prefix_shape in Hd.
  destruct Hd as (_ & pre & Hline & Hpre).
  apply findall_second in H.
  destruct H as (p1 & t1 & rest1 & c1 & q & t2 & m2 & Hs & H1 & H2 & H3).
  apply match_at_sound, comma_in_token in H1.
  destruct H1 as (u & v & Ht1).
  (* the comma of the first token lies after the date head *)
  assert (Hsuf : exists q', rest = q' ++ v ++ rest1).
  { destruct (le_lt_dec (length pre) (length (p1 ++ u))) as [Hl|Hl].
    - apply (@suffix_of_suffix ((p1 ++ u) ++ [","%char]) (v ++ rest1)
               pre rest).
      + rewrite <- Hline, Hs, Ht1, <- !app_assoc. reflexivity.
      + rewrite length_app. simpl. lia.
    - exfalso.
      assert (Hc : exists q', pre = (p1 ++ u) ++ ","%char :: q').
      { assert (E : (p1 ++ u) ++ ","%char :: v ++ rest1 = pre ++ rest)
          by (rewrite <- Hline, Hs, Ht1, <- !app_assoc; reflexivity).
        clear - E Hl. revert E Hl. generalize (p1 ++ u) as x.
        generalize (v ++ rest1) as y. intros y x. revert pre.
        induction x as [|a x IH]; intros pre E Hl.
        - destruct pre as [|b pre]; [simpl in Hl; lia|].
          simpl in E. inversion E; subst. exists pre. reflexivity.
        - destruct pre as [|b pre]; [simpl in Hl; lia|].
          simpl in E. inversion E; subst.
          destruct (IH pre H1) as (q' & ->); [simpl in Hl; lia|].
          exists q'. reflexivity. }
      destruct Hc as (q' & Hc). rewrite Hc in Hpre.
      apply Forall_app in Hpre. destruct Hpre as [_ Hpre].
      inversion Hpre; subst. apply H1. reflexivity. }
  destruct Hsuf as (q' & Hrest).
  assert (Hnone := @findall_from_nil _ _ _ Hnil (q' ++ v ++ q) t2).
  assert (Hs2 : is_some (match_at (length rest) num_pattern t2) = true).
  { unfold match_at.
    apply (@rmatch_succ (length line) (length rest) num_pattern
             (or_introl num_pattern_no_bol) (str * caps)%type
             (str * caps)%type t2 [] [] (fun s' c' => Some (s', c'))).
    - intros; reflexivity.
    - unfold re_findall in H3. unfold match_at in H3. rewrite H3.
      reflexivity. }
  rewrite Hnone in Hs2; [discriminate|].
  rewrite Hrest, H2, <- !app_assoc. reflexivity.
Qed.

(** Such a line does not match [trans_pattern]: its lookahead needs a
    token after the date head. *)
Lemma no_trans_match line rest c :
  re_match date_prefix line = Some (rest, c) ->
  re_findall num_pattern rest = [] ->
  re_match trans_pattern line = None.
Proof.
  intros Hd Hnil.
  destruct (re_match trans_pattern line) as [[restT cT]|] eqn:E;
    [exfalso | reflexivity].
  apply match_at_sound, date_prefix_shape in Hd. destruct Hd as (Hrest & _).
  unfold re_match, match_at, trans_pattern in E.
  apply rmatch_seq_sound in E. destruct E as (s1 & c1 & Hp & E).
  apply date_prefix_shape in Hp. destruct Hp as (Hs1 & _).
  rewrite <- Hrest in Hs1. subst s1.
  unfold trans_tail in E.
  apply rmatch_seq_sound in E. destruct E as (s2 & c2 & M2 & E).
  apply rmatch_seq_sound in E. destruct E as (s3 & c3 & M3 & E).
  apply rmatch_seq_sound in E. destruct E as (s4 & c4 & M4 & E).
  apply rmatch_seq_sound in E. destruct E as (s5 & c5 & M5 & E).
  cbn [rmatch] in E.
  match type of E with
  | match ?x with _ => _ end = _ => destruct x as [cl|] eqn:L;
                                    [|discriminate]
  end.
  apply rmatch_seq_sound in L. destruct L as (s6 & c6 & M6 & L).
  apply rmatch_sound in L. destruct L as (s7 & c7 & M7 & L).
  apply matches_split in M2, M3, M4, M5, M6, M7.
  destruct M2 as (u2 & ->), M3 as (u3 & ->), M4 as (u4 & ->),
           M5 as (u5 & ->), M6 as (u6 & ->), M7 as (u7 & ->).
  rewrite (@findall_none_no_match caps (length line) _
             (u2 ++ u3 ++ u4 ++ u5 ++ u6 ++ u7) s7 c7
             (fun _ c1 => Some c1) Hnil)
    in L; [discriminate | | reflexivity].
  rewrite <- !app_assoc. reflexivity.
Qed.

(** ** Indexing from the end *)

Lemma or_next_skip y : or_next (Ret None) y = y.
Proof. reflexivity. Qed.

Lemma last_two (A : Type) (l : list A) :
  2 <= length l -> exists pre a b, l = pre ++ [a; b].
Proof.
  intros H. destruct (rev l) as [|b [|a t]] eqn:E.
  - apply (f_equal (@length A)) in E. rewrite length_rev in E. simpl in E. lia.
  - apply (f_equal (@length A)) in E. rewrite length_rev in E. simpl in E. lia.
  - exists (rev t), a, b. rewrite <- (rev_involutive l), E. simpl.
    rewrite <- app_assoc. reflexivity.
Qed.

Lemma item_last_two (A : Type) (pre : list A) a b :
  item (pre ++ [a; b]) (-2) = Ret a /\ item (pre ++ [a; b]) (-1) = Ret b.
Proof.
  unfold item. rewrite length_app. simpl length.
  replace (Z.of_nat (length pre + 2) + -2)%Z with (Z.of_nat (length pre))
    by lia.
  replace (Z.of_nat (length pre + 2) + -1)%Z with (Z.of_nat (length pre + 1))
    by lia.
  cbn [Z.ltb Z.compare].
  assert (H1 : ((0 <=? Z.of_nat (length pre))
                && (Z.of_nat (length pre) <? Z.of_nat (length pre + 2)))%Z
               = true).
  { apply andb_true_intro. split; [apply Z.leb_le | apply Z.ltb_lt]; lia. }
  assert (H2 : ((0 <=? Z.of_nat (length pre + 1))
                && (Z.of_nat (length pre + 1) <? Z.of_nat (length pre + 2)))%Z
               = true).
  { apply andb_true_intro. split; [apply Z.leb_le | apply Z.ltb_lt]; lia. }
  rewrite H1, H2, !Nat2Z.id. split.
  - rewrite nth_error_app2 by lia. rewrite Nat.sub_diag. reflexivity.
  - rewrite nth_error_app2 by lia.
    replace (length pre + 1 - length pre) with 1 by lia. reflexivity.
Qed.

(** ** The line classifier *)

(** C3 (amended).  For every line of at least 20 characters, after the
    trailing-whitespace trim, that contains "PAGOS" but lacks the date
    pattern or has fewer than 2 numeric tokens, the PAGOS rule yields
    no Payment record and the classifier goes on to the later rules:
    its result is that of the cascade without the PAGOS rule. *)
Theorem pagos_falls_through (line0 : str) :
  let line := rstrip line0 in
  20 <= length line ->
  contains (lit "PAGOS") line = true ->
  re_search date_pattern line = None \/
  length (re_findall num_pattern line) < 2 ->
  pagos line = Ret None /\
  parse_line line0 =
  or_next (saldo_anterior line)
 (or_next (seguro line)
 (or_next (saldo_contado line)
          (transaccion line))).
Proof.
  intros line Hlen Hin Hmiss.
  assert (Hp : pagos line = Ret None).
  { unfold pagos. rewrite Hin.
    destruct Hmiss as [Hd|Hn].
    - rewrite Hd. reflexivity.
    - apply Nat.leb_gt in Hn. rewrite Hn.
      destruct (re_search date_pattern line) as [[? ?]|]; reflexivity. }
  split; [exact Hp|].
  unfold parse_line. fold line.
  apply Nat.ltb_ge in Hlen. rewrite Hlen, Hp, or_next_skip. reflexivity.
Qed.

(** C3, at a dated line with PAGOS in its description and one amount. *)
Lemma pagos_falls_through_witness :
  pagos (rstrip pagos_line) = Ret None /\
  parse_line pagos_line =
  or_next (saldo_anterior (rstrip pagos_line))
 (or_next (seguro (rstrip pagos_line))
 (or_next (saldo_contado (rstrip pagos_line))
          (transaccion (rstrip pagos_line)))).
Proof.
  apply (@pagos_falls_through pagos_line).
  - vm_compute. lia.
  - vm_compute. reflexivity.
  - right. vm_compute. lia.
Defined.

(** C3 as stated fails: such a line is classified by the transaction
    rule. *)
Lemma pagos_no_match_counterexample :
  20 <= length (rstrip pagos_line) /\
  contains (lit "PAGOS") (rstrip pagos_line) = true /\
  length (re_findall num_pattern (rstrip pagos_line)) < 2 /\
  parse_line pagos_line =
  Ret (Some {| Fecha := PStr (lit "15/03/24");
               Codigo := PStr (lit "1234");
               Descripcion := PStr (lit "PAGOS VARIOS");
               Cuotas := PStr [];
               Monto_UYU := PFloat (Qred 1500.00);
               Monto_USD := PNone;
               Tipo := PStr Transaccion |}) /\
  parse_line pagos_line <> Ret None.
Proof.
  repeat split; try (vm_compute; lia); try (vm_compute; reflexivity).
  vm_compute. discriminate.
Qed.

(** C4.  The sample line [netflix_line] is classified as a Transaction
    with date "15/03/24", code "1234", description "NETFLIX.COM" (the
    installment marker removed), installments "3/6", local amount
    1500.00 and no foreign amount (empty once filled). *)
Theorem netflix_transaction :
  exists r,
    parse_line netflix_line = Ret (Some r) /\
    Fecha r = PStr (lit "15/03/24") /\
    Codigo r = PStr (lit "1234") /\
    Descripcion r = PStr (lit "NETFLIX.COM") /\
    Cuotas r = PStr (lit "3/6") /\
    Monto_UYU r = PFloat (Qred 1500.00) /\
    Monto_USD r = PNone /\
    fillna (Monto_USD r) = PStr [] /\
    Tipo r = PStr Transaccion.
Proof.
  eexists. split; [vm_compute; reflexivity|].
  repeat split.
Qed.

(** C5 (amended).  For every line of at least 20 characters that
    contains "SALDO CONTADO", holds at least 2 numeric tokens and
    contains none of the markers of the earlier rules, the classifier
    returns kind Balance ("Saldo") with description "SALDO FINAL" and
    the last two tokens as amounts, whether or not the line begins
    with a transaction-date head. *)
Theorem saldo_contado_balance (line0 : str) :
  let line := rstrip line0 in
  20 <= length line ->
  contains (lit "SALDO CONTADO") line = true ->
  2 <= length (re_findall num_pattern line) ->
  contains (lit "SALDO DEL ESTADO DE CUENTA ANTERIOR") line = false ->
  contains (lit "PAGOS") line = false ->
  contains (lit "SEGURO DE VIDA SOBRE SALDO") line = false ->
  exists pre t2 t1,
    re_findall num_pattern line = pre ++ [t2; t1] /\
    parse_line line0 =
    Ret (Some {| Fecha := PStr []; Codigo := PStr [];
                 Descripcion := PStr (lit "SALDO FINAL");
                 Cuotas := PStr [];
                 Monto_UYU := PFloat (token_value t2);
                 Monto_USD := PFloat (token_value t1);
                 Tipo := PStr (lit "Saldo") |}).
Proof.
  intros line Hlen Hin Htok H1 H2 H3.
  destruct (last_two _ Htok) as (pre & t2 & t1 & E).
  exists pre, t2, t1. split; [exact E|].
  unfold parse_line. fold line.
  apply Nat.ltb_ge in Hlen. rewrite Hlen.
  unfold saldo_anterior at 1. rewrite H1, or_next_skip.
  unfold pagos at 1. rewrite H2, or_next_skip.
  unfold seguro at 1. rewrite H3, or_next_skip.
  unfold saldo_contado. rewrite Hin.
  apply Nat.leb_le in Htok. rewrite Htok.
  assert (A2 : amount t2 = Ret (token_value t2)).
  { apply (@token_amount (length line) 0 line).
    fold (re_findall num_pattern line). rewrite E.
    apply in_or_app. right. left. reflexivity. }
  assert (A1 : amount t1 = Ret (token_value t1)).
  { apply (@token_amount (length line) 0 line).
    fold (re_findall num_pattern line). rewrite E.
    apply in_or_app. right. right. left. reflexivity. }
  rewrite E. destruct (item_last_two pre t2 t1) as [I2 I1].
  rewrite I2, I1. cbn [bind]. rewrite A2, A1. reflexivity.
Qed.

(** C5, at a dated line with two amounts. *)
Lemma saldo_contado_balance_witness :
  exists pre t2 t1,
    re_findall num_pattern (rstrip saldo_line) = pre ++ [t2; t1] /\
    parse_line saldo_line =
    Ret (Some {| Fecha := PStr []; Codigo := PStr [];
                 Descripcion := PStr (lit "SALDO FINAL");
                 Cuotas := PStr [];
                 Monto_UYU := PFloat (token_value t2);
                 Monto_USD := PFloat (token_value t1);
                 Tipo := PStr (lit "Saldo") |}).
Proof.
  apply (@saldo_contado_balance saldo_line);
    try (vm_compute; reflexivity); vm_compute; lia.
Defined.

(** C5 as stated fails: a dated SALDO CONTADO line that also holds
    PAGOS is a Payment, and one with a single amount is a Transaction. *)
Lemma saldo_contado_counterexample :
  20 <= length (rstrip saldo_pagos_line) /\
  contains (lit "SALDO CONTADO") (rstrip saldo_pagos_line) = true /\
  is_some (re_match date_prefix (rstrip saldo_pagos_line)) = true /\
  parse_line saldo_pagos_line =
  Ret (Some {| Fecha := PStr (lit "15/03/24");
               Codigo := PStr [];
               Descripcion := PStr (lit "PAGOS");
               Cuotas := PStr [];
               Monto_UYU := PFloat (Qred 4.00);
               Monto_USD := PFloat (Qred 1500.00);
               Tipo := PStr (lit "Pago") |}) /\
  20 <= length (rstrip saldo_one_amount_line) /\
  contains (lit "SALDO CONTADO") (rstrip saldo_one_amount_line) = true /\
  is_some (re_match date_prefix (rstrip saldo_one_amount_line)) = true /\
  parse_line saldo_one_amount_line =
  Ret (Some {| Fecha := PStr (lit "15/03/24");
               Codigo := PStr (lit "1234");
               Descripcion := PStr (lit "SALDO CONTADO");
               Cuotas := PStr [];
               Monto_UYU := PFloat (Qred 1500.00);
               Monto_USD := PNone;
               Tipo := PStr Transaccion |}).
Proof.
  repeat split; try (vm_compute; lia); vm_compute; reflexivity.
Qed.

Lemma or_next_some x y r :
  or_next x y = Ret (Some r) ->
  x = Ret (Some r) \/ (x = Ret None /\ y = Ret (Some r)).
Proof.
  unfold or_next, bind. destruct x as [|[v|]]; intros H.
  - discriminate.
  - left. exact H.
  - right. auto.
Qed.

Ltac split_record H :=
  unfold bind in H;
  repeat match type of H with
         | context [match ?x with _ => _ end] =>
           destruct x; try discriminate
         end;
  inversion H; subst; clear H;
  (split; cbn [Tipo Monto_UYU];
   [ eexists; split; [reflexivity | discriminate]
   | eexists; reflexivity ]).

Lemma saldo_anterior_record line r :
  saldo_anterior line = Ret (Some r) -> has_kind_and_amount r.
Proof. unfold saldo_anterior. intros H. split_record H. Qed.

Lemma pagos_record line r :
  pagos line = Ret (Some r) -> has_kind_and_amount r.
Proof. unfold pagos. intros H. split_record H. Qed.

Lemma seguro_record line r :
  seguro line = Ret (Some r) -> has_kind_and_amount r.
Proof. unfold seguro. intros H. split_record H. Qed.

Lemma saldo_contado_record line r :
  saldo_contado line = Ret (Some r) -> has_kind_and_amount r.
Proof. unfold saldo_contado. intros H. split_record H. Qed.

Lemma transaccion_record line r :
  transaccion line = Ret (Some r) -> has_kind_and_amount r.
Proof. unfold transaccion. intros H. split_record H. Qed.

Lemma rule_without_tokens line :
  length (re_findall num_pattern line) < 2 ->
  saldo_anterior line = Ret None /\ pagos line = Ret None /\
  seguro line = Ret None /\ saldo_contado line = Ret None.
Proof.
  intros H. apply Nat.leb_gt in H.
  unfold saldo_anterior, pagos, seguro, saldo_contado. rewrite H.
  repeat split;
    repeat match goal with
           | |- context [match ?x with _ => _ end] => destruct x
           end; reflexivity.
Qed.

(** C7.  Every record the line classifier returns has a non-empty
    kind and a float as local amount; and a line that begins with the
    date head of the transaction pattern and has no numeric token
    after it yields no match. *)
Theorem records_are_complete (line : str) :
  (forall r, parse_line line = Ret (Some r) -> has_kind_and_amount r) /\
  (forall rest c,
      re_match date_prefix (rstrip line) = Some (rest, c) ->
      re_findall num_pattern rest = [] ->
      parse_line line = Ret None).
Proof.
  split.
  - unfold parse_line. intros r H.
    destruct (length (rstrip line) <? 20); [discriminate|].
    apply or_next_some in H.
    destruct H as [H|[_ H]]; [eapply saldo_anterior_record; eauto|].
    apply or_next_some in H.
    destruct H as [H|[_ H]]; [eapply pagos_record; eauto|].
    apply or_next_some in H.
    destruct H as [H|[_ H]]; [eapply seguro_record; eauto|].
    apply or_next_some in H.
    destruct H as [H|[_ H]]; [eapply saldo_contado_record; eauto|].
    eapply transaccion_record; eauto.
  - intros rest c Hd Hnil. unfold parse_line.
    destruct (length (rstrip line) <? 20); [reflexivity|].
    destruct (@rule_without_tokens _ (few_tokens _ Hd Hnil))
      as (-> & -> & -> & ->).
    rewrite !or_next_skip. unfold transaccion.
    rewrite (no_trans_match _ Hd Hnil). reflexivity.
Qed.

(** C7, at a dated line with an amount and at one without. *)
Lemma records_are_complete_witness :
  has_kind_and_amount
    {| Fecha := PStr (lit "15/03/24");
       Codigo := PStr (lit "1234");
       Descripcion := PStr (lit "NETFLIX.COM");
       Cuotas := PStr (lit "3/6");
       Monto_UYU := PFloat (Qred 1500.00);
       Monto_USD := PNone;
       Tipo := PStr Transaccion |} /\
  parse_line no_amount_line = Ret None.
Proof.
  split.
  - apply (proj1 (records_are_complete netflix_line)).
    vm_compute. reflexivity.
  - apply (proj2 (records_are_complete no_amount_line)
             (lit " 1234    NETFLIX.COM          3/6")
             [(3, lit "24"); (2, lit "03"); (1, lit "15")]).
    + vm_compute. reflexivity.
    + vm_compute. reflexivity.
Defined.

Lemma replace_chain tok :
  replace (lit ",") (lit ".") (replace (lit ".") [] tok) =
  map comma_as_point (filter (fun a => negb (Ascii.eqb a ".")) tok).
Proof.
  change (lit ".") with ["."%char]. change (lit ",") with [","%char].
  rewrite !replace_char. induction tok as [|a tok IH]; [reflexivity|].
  cbn [flat_map filter]. unfold subst_char at 2.
  rewrite (Ascii.eqb_sym "." a).
  destruct (Ascii.eqb a "."); cbn [negb]; [exact IH|].
  cbn [flat_map app map]. rewrite IH. unfold subst_char, comma_as_point.
  rewrite (Ascii.eqb_sym "," a). destruct (Ascii.eqb a ","); reflexivity.
Qed.

(** C8.  The amount normalization parses the token with every "."
    removed and "," read as the decimal point; on every token of the
    locale pattern it returns the number the token denotes, and in
    particular 1234.56 on "1.234,56", -12.0 on "-12,00" and 5.0 on
    "5,00". *)
Theorem amount_of_locale_token :
  (forall tok,
      amount tok =
      float (map comma_as_point
                 (filter (fun a => negb (Ascii.eqb a ".")) tok))) /\
  (forall tok,
      matches num_pattern tok [] -> amount tok = Ret (token_value tok)) /\
  (forall line tok,
      In tok (re_findall num_pattern line) ->
      amount tok = Ret (token_value tok)) /\
  amount (lit "1.234,56") = Ret (Qred 1234.56) /\
  amount (lit "-12,00") = Ret (Qred (-12.0)) /\
  amount (lit "5,00") = Ret (Qred 5.0).
Proof.
  split; [|split; [|split]].
  - intros tok. unfold amount. rewrite replace_chain. reflexivity.
  - intros tok H. apply num_pattern_shape in H.
    destruct H as (neg & d0 & body & d1 & d2 & -> & Hd0 & Hb & Hd1 & Hd2).
    destruct (@amount_of_shape neg d0 body d1 d2 Hd0 Hb Hd1 Hd2) as [E ->].
    unfold token_value. rewrite E. reflexivity.
  - intros line tok H. eapply token_amount. exact H.
  - repeat split; vm_compute; reflexivity.
Qed.

(** C8, at a token found in a line. *)
Lemma amount_of_locale_token_witness :
  amount (lit "-1.234.567,89") = Ret (Qred (-1234567.89)).
Proof.
  rewrite (proj1 (proj2 (proj2 amount_of_locale_token))
             (lit "PAGOS  -1.234.567,89  0,00") (lit "-1.234.567,89")).
  - vm_compute. reflexivity.
  - vm_compute. left. reflexivity.
Defined.

(** ** The table cleaner *)

(** C1.  On the cell "1.234,56" of a column selected for coercion,
    [clean_df] yields 123456, not the 1234.56 the token denotes: it
    turns "," into "." first and then removes every ".". *)
Theorem clean_df_drops_decimal_point :
  numeric_cols statement_frame = [PStr (lit "Monto")] /\
  clean_df statement_frame =
  Ret [ (PStr (lit "Fecha"), [PStr (lit "01/02"); PStr (lit "02/02")]);
        (PStr (lit "Detalle"),
         [PStr (lit "SUPERMERCADO"); PStr (lit "ALQUILER")]);
        (PStr (lit "Monto"), [PFloat 5; PFloat 123456]) ] /\
  coerce_cell (Some (lit "1.234,56")) = PFloat 123456 /\
  coerce_cell (Some (lit "12,50")) = PFloat 1250 /\
  amount (lit "1.234,56") = Ret (Qred 1234.56) /\
  PFloat 123456 <> PFloat (Qred 1234.56).
Proof.
  repeat split; try (vm_compute; reflexivity).
  vm_compute. discriminate.
Qed.

Lemma keep_rows_in (A : Type) (keep : list bool) (cells : list A) v :
  In v (keep_rows keep cells) -> In v cells.
Proof.
  revert cells. induction keep as [|b keep IH]; intros cells H.
  - destruct cells; contradiction.
  - destruct cells as [|c cells]; [contradiction|].
    simpl in H. destruct b.
    + destruct H as [<-|H]; [left; reflexivity | right; auto].
    + right. auto.
Qed.






(** ** The fallback cascade *)

Section Orchestrator.

Variable w : world.

(** C9.  For a path that names no existing file, or whose name does
    not end in ".pdf" whatever the case of its letters, the conversion
    returns no result and enters none of the three stages. *)
Theorem invalid_path_fails (file_path : str) :
  path_exists w file_path = false \/
  endswith (lit ".pdf") (lower file_path) = false ->
  pdf_to_csv w file_path = ([], None).
Proof.
  unfold pdf_to_csv. intros [H|H].
  - rewrite H. reflexivity.
  - rewrite H. destruct (path_exists w file_path); reflexivity.
Qed.


End Orchestrator.

(** C9, at a path with another extension. *)
Lemma invalid_path_fails_witness :
  pdf_to_csv (demo_world []) (lit "estadodecuenta.txt") = ([], None).
Proof.
  apply invalid_path_fails. right. vm_compute. reflexivity.
Defined.



(** ** The concatenated text *)

Lemma full_text_from (pages : list page) (acc : str) :
  fold_left (fun a p => a ++ page_chunk p) pages acc =
  acc ++ concat (map page_chunk pages).
Proof.
  revert acc. induction pages as [|p pages IH]; intros acc; simpl.
  - rewrite app_nil_r. reflexivity.
  - rewrite IH, <- app_assoc. reflexivity.
Qed.

Lemma full_text_concat (pages : list page) :
  full_text pages = concat (map page_chunk pages).
Proof. unfold full_text. apply full_text_from. Qed.

Lemma full_text_app (xs ys : list page) :
  full_text (xs ++ ys) = full_text xs ++ full_text ys.
Proof. rewrite !full_text_concat, map_app, concat_app. reflexivity. Qed.

Lemma split_nonempty sep s : split sep s <> [].
Proof.
  destruct s as [|a s]; simpl; [discriminate|].
  destruct (Ascii.eqb a sep); [discriminate|].
  destruct (split sep s); discriminate.
Qed.

(** Lines across a junction: the last line of [t] and the first line
    of [u] become one line of [t ++ u]. *)
Lemma split_app sep (t u : str) :
  split sep (t ++ u) =
  removelast (split sep t)
  ++ (last (split sep t) [] ++ hd [] (split sep u)) :: tl (split sep u).
Proof.
  induction t as [|a t IH]; simpl.
  - destruct (split sep u) eqn:E; [|reflexivity].
    exfalso. exact (split_nonempty _ _ E).
  - destruct (Ascii.eqb a sep).
    + rewrite IH.
      destruct (split sep t) eqn:E; [exfalso; exact (split_nonempty _ _ E)|].
      reflexivity.
    + rewrite IH.
      destruct (split sep t) as [|l ls] eqn:E;
        [exfalso; exact (split_nonempty _ _ E)|].
      destruct ls as [|l' ls']; reflexivity.
Qed.

(** C10.  Two consecutive pages that both yield text contribute their
    texts with nothing in between, so that the last line of the first
    and the first line of the second form one line; a page that yields
    no text contributes a line feed alone. *)
Theorem pages_join_without_separator
        (before after : list page) (p q : page) (t u : str) :
  extract_text p = Some t -> t <> [] ->
  extract_text q = Some u -> u <> [] ->
  page_chunk p = t /\
  full_text (before ++ p :: q :: after) =
  full_text before ++ t ++ u ++ full_text after /\
  split "010" (t ++ u) =
  removelast (split "010" t)
  ++ (last (split "010" t) [] ++ hd [] (split "010" u))
     :: tl (split "010" u) /\
  (forall e, extract_text e = None \/ extract_text e = Some [] ->
             page_chunk e = ["010"%char] /\
             full_text (before ++ p :: e :: q :: after) =
             full_text before ++ t ++ ["010"%char] ++ u
               ++ full_text after).
Proof.
  intros Hp Ht Hq Hu.
  assert (Cp : page_chunk p = t).
  { unfold page_chunk. rewrite Hp. destruct t; [contradiction | reflexivity]. }
  assert (Cq : page_chunk q = u).
  { unfold page_chunk. rewrite Hq. destruct u; [contradiction | reflexivity]. }
  split; [exact Cp|]. split; [|split].
  - rewrite full_text_app.
    change (p :: q :: after) with ([p; q] ++ after).
    rewrite full_text_app, (full_text_concat [p; q]). simpl.
    rewrite Cp, Cq, app_nil_r, <- app_assoc. reflexivity.
  - apply split_app.
  - intros e He.
    assert (Ce : page_chunk e = ["010"%char]).
    { unfold page_chunk. destruct He as [-> | ->]; reflexivity. }
    split; [exact Ce|].
    rewrite full_text_app.
    change (p :: e :: q :: after) with ([p; e; q] ++ after).
    rewrite full_text_app, (full_text_concat [p; e; q]). simpl.
    rewrite Cp, Cq, Ce, app_nil_r. simpl.
    rewrite <- !app_assoc. reflexivity.
Qed.

(** C10, at two pages of one line each: the two records merge. *)
Lemma pages_join_without_separator_witness :
  text_lines (full_text [first_page; second_page]) =
  [ lit "15 03 24 1234    NETFLIX.COM          3/6        1.500,0016 03 24 5678    SPOTIFY                         399,00" ] /\
  transactions (text_lines (full_text [first_page; second_page])) =
  Ret [ {| Fecha := PStr (lit "15/03/24");
           Codigo := PStr (lit "1234");
           Descripcion := PStr (lit "NETFLIX.COM");
           Cuotas := PStr (lit "3/6");
           Monto_UYU := PFloat (Qred 399.00);
           Monto_USD := PFloat (Qred 1500.00);
           Tipo := PStr Transaccion |} ].
Proof.
  split; [|vm_compute; reflexivity].
  destruct (@pages_join_without_separator
              [] [] first_page second_page _ _
              eq_refl ltac:(discriminate) eq_refl ltac:(discriminate))
    as (_ & H & _).
  cbn [app] in H. rewrite H. vm_compute. reflexivity.
Defined.

(** ** The fuel of a repetition never runs out *)

Lemma star_loop_ext (R : Type)
      (body : str -> caps -> (str -> caps -> option R) -> option R)
      g (k1 k2 : str -> caps -> option R) :
  (forall s c j1 j2,
      (forall s1 c1, length s1 <= length s -> j1 s1 c1 = j2 s1 c1) ->
      body s c j1 = body s c j2) ->
  forall fuel s c,
    (forall s1 c1, length s1 <= length s -> k1 s1 c1 = k2 s1 c1) ->
    star_loop body g k1 fuel s c = star_loop body g k2 fuel s c.
Proof.
  intros Hbody fuel. induction fuel as [|f IH]; intros s c Hk; simpl.
  - apply Hk. lia.
  - rewrite (Hk s c) by lia.
    rewrite (Hbody s c
               (fun s1 c1 => if length s1 <? length s
                             then star_loop body g k1 f s1 c1 else None)
               (fun s1 c1 => if length s1 <? length s
                             then star_loop body g k2 f s1 c1 else None)).
    + reflexivity.
    + intros s1 c1 Hl. destruct (length s1 <? length s) eqn:E;
        [|reflexivity].
      apply IH. intros s2 c2 Hl2. apply Hk. lia.
Qed.

Lemma rmatch_ext (R : Type) n r :
  forall s c (k1 k2 : str -> caps -> option R),
    (forall s1 c1, length s1 <= length s -> k1 s1 c1 = k2 s1 c1) ->
    rmatch n r s c k1 = rmatch n r s c k2.
Proof.
  revert R. induction r; intros R s c k1 k2 Hk; simpl.
  - apply Hk. lia.
  - destruct s as [|a s']; [reflexivity|].
    destruct (p a); [|reflexivity]. apply Hk. simpl. lia.
  - apply IHr1. intros s1 c1 Hl. apply IHr2.
    intros s2 c2 Hl2. apply Hk. lia.
  - rewrite (IHr1 R s c k1 k2 Hk), (IHr2 R s c k1 k2 Hk). reflexivity.
  - apply star_loop_ext; [|exact Hk].
    intros s0 c0 j1 j2 Hj. apply IHr. exact Hj.
  - apply IHr. intros s1 c1 Hl. apply Hk. exact Hl.
  - destruct (rmatch n r s c (fun _ c1 => Some c1)); [|reflexivity].
    apply Hk. lia.
  - destruct (length s =? n); [|reflexivity]. apply Hk. lia.
  - destruct s as [|a [|b t]]; try reflexivity.
    + apply Hk. lia.
    + destruct (is_char "010" a); [|reflexivity]. apply Hk. lia.
Qed.

Lemma rmatch_never (R : Type) n r s c :
  rmatch n r s c (fun _ _ => @None R) = None.
Proof.
  destruct (rmatch n r s c (fun _ _ => None)) eqn:E; [|reflexivity].
  apply rmatch_sound in E. destruct E as (? & ? & _ & E). discriminate.
Qed.

Lemma star_loop_fuel (R : Type)
      (body : str -> caps -> (str -> caps -> option R) -> option R)
      g (k : str -> caps -> option R) :
  (forall s c j1 j2,
      (forall s1 c1, length s1 <= length s -> j1 s1 c1 = j2 s1 c1) ->
      body s c j1 = body s c j2) ->
  (forall s c, body s c (fun _ _ => None) = None) ->
  forall f1 f2 s c,
    length s <= f1 -> length s <= f2 ->
    star_loop body g k f1 s c = star_loop body g k f2 s c.
Proof.
  intros Hext Hnever.
  assert (Hempty : forall f c, star_loop body g k f [] c = k [] c).
  { intros [|f] c; cbn [star_loop]; [reflexivity|].
    rewrite (Hext [] c
               (fun s1 c1 => if length s1 <? length (@nil ascii)
                             then star_loop body g k f s1 c1 else None)
               (fun _ _ => None)), Hnever.
    - destruct g; [reflexivity|]. destruct (k [] c); reflexivity.
    - intros s1 c1 Hl. destruct s1; [reflexivity | simpl in Hl; lia]. }
  induction f1 as [|f1 IH]; intros f2 s c H1 H2.
  - destruct s; [|simpl in H1; lia]. rewrite !Hempty. reflexivity.
  - destruct f2 as [|f2].
    + destruct s; [|simpl in H2; lia]. rewrite !Hempty. reflexivity.
    + cbn [star_loop].
      rewrite (Hext s c
                 (fun s1 c1 => if length s1 <? length s
                               then star_loop body g k f1 s1 c1 else None)
                 (fun s1 c1 => if length s1 <? length s
                               then star_loop body g k f2 s1 c1 else None)).
      * reflexivity.
      * intros s1 c1 _. destruct (length s1 <? length s) eqn:E;
          [|reflexivity].
        apply Nat.ltb_lt in E. apply IH; lia.
Qed.

(** With at least [length s] units of fuel, the loop of [r*] on [s]
    does what it does with any larger amount. *)
Lemma star_fuel_enough (R : Type) n r g (k : str -> caps -> option R)
      f s c :
  length s <= f ->
  star_loop (fun s1 c1 k1 => rmatch n r s1 c1 k1) g k f s c =
  rmatch n (Star g r) s c k.
Proof.
  intros H. simpl. apply star_loop_fuel; [| |exact H|lia].
  - intros s0 c0 j1 j2 Hj. apply rmatch_ext. exact Hj.
  - intros s0 c0. apply rmatch_never.
Qed.

(** ** Captures persist *)

Lemma keeps_refl c : keeps c c.
Proof. intros i H. exact H. Qed.

Lemma keeps_trans c1 c2 c3 : keeps c1 c2 -> keeps c2 c3 -> keeps c1 c3.
Proof. intros H1 H2 i H. apply H2, H1, H. Qed.

Lemma keeps_cons c i t : keeps c ((i, t) :: c).
Proof.
  intros j H. unfold bound. simpl. destruct (i =? j); [discriminate | exact H].
Qed.

Lemma bound_cons c i t : bound ((i, t) :: c) i.
Proof. unfold bound. simpl. rewrite Nat.eqb_refl. discriminate. Qed.

Lemma star_loop_keeps (R : Type) body g (k : str -> caps -> option R) :
  (forall s c k' x, body s c k' = Some x ->
     exists s1 c1, keeps c c1 /\ k' s1 c1 = Some x) ->
  forall fuel s c x, star_loop body g k fuel s c = Some x ->
     exists s' c', keeps c c' /\ k s' c' = Some x.
Proof.
  intros Hbody fuel; induction fuel as [|f IH]; intros s c x H;
    cbn [star_loop] in H.
  - exists s, c. split; [apply keeps_refl | exact H].
  - assert (Hagain : forall y,
      body s c (fun s1 c1 => if length s1 <? length s
                             then star_loop body g k f s1 c1 else None)
      = Some y ->
      exists s' c', keeps c c' /\ k s' c' = Some y).
    { intros y Hy. apply Hbody in Hy. destruct Hy as (s1 & c1 & Hm & Hk).
      destruct (length s1 <? length s); [|discriminate].
      apply IH in Hk. destruct Hk as (s' & c' & Hs & Hk).
      exists s', c'. split; [eapply keeps_trans; eauto | exact Hk]. }
    destruct g.
    + destruct (body s c _) as [y|].
      * inversion H; subst. apply Hagain. reflexivity.
      * exists s, c. split; [apply keeps_refl | exact H].
    + destruct (k s c) as [y|] eqn:E.
      * inversion H; subst. exists s, c. split; [apply keeps_refl | exact E].
      * apply Hagain. exact H.
Qed.

Lemma rmatch_keeps (R : Type) n r :
  forall s c (k : str -> caps -> option R) x,
    rmatch n r s c k = Some x ->
    exists s' c', keeps c c' /\ k s' c' = Some x.
Proof.
  revert R. induction r; intros R s c k x H; simpl in H.
  - exists s, c. split; [apply keeps_refl | exact H].
  - destruct s as [|a s']; [discriminate|].
    destruct (p a); [|discriminate].
    exists s', c. split; [apply keeps_refl | exact H].
  - apply IHr1 in H. destruct H as (s1 & c1 & H1 & H).
    apply IHr2 in H. destruct H as (s2 & c2 & H2 & H).
    exists s2, c2. split; [eapply keeps_trans; eauto | exact H].
  - destruct (rmatch n r1 s c k) as [y|] eqn:E.
    + inversion H; subst. apply IHr1 in E. exact E.
    + apply IHr2 in H. exact H.
  - eapply star_loop_keeps; [|exact H]. intros. eapply IHr; eauto.
  - apply IHr in H. destruct H as (s1 & c1 & H1 & H).
    eexists; eexists. split; [|exact H].
    eapply keeps_trans; [exact H1 | apply keeps_cons].
  - destruct (rmatch n r s c _) as [c1|] eqn:E; [|discriminate].
    apply IHr in E. destruct E as (s1 & c2 & H1 & E).
    inversion E; subst.
    exists s, c1. split; [exact H1 | exact H].
  - destruct (length s =? n); [|discriminate].
    exists s, c. split; [apply keeps_refl | exact H].
  - exists s.
    destruct s as [|a [|b t]]; try discriminate.
    + exists c. split; [apply keeps_refl | exact H].
    + destruct (is_char "010" a); [|discriminate].
      exists c. split; [apply keeps_refl | exact H].
Qed.

Lemma rmatch_group_bound (R : Type) n i r s c
      (k : str -> caps -> option R) x :
  rmatch n (Group i r) s c k = Some x ->
  exists s' c', bound c' i /\ k s' c' = Some x.
Proof.
  simpl. intros H. apply rmatch_keeps in H.
  destruct H as (s1 & c1 & _ & H).
  eexists; eexists. split; [|exact H]. apply bound_cons.
Qed.

(** After a match of [trans_pattern], group [desc] is set. *)
Lemma trans_pattern_desc line rest c :
  re_match trans_pattern line = Some (rest, c) -> bound c 5.
Proof.
  unfold re_match, match_at, trans_pattern, trans_tail. intros E.
  apply rmatch_seq_sound in E. destruct E as (s1 & c1 & _ & E).
  apply rmatch_seq_sound in E. destruct E as (s2 & c2 & _ & E).
  apply rmatch_seq_sound in E. destruct E as (s3 & c3 & _ & E).
  apply rmatch_seq_sound in E. destruct E as (s4 & c4 & _ & E).
  cbn [rmatch] in E. fold (rmatch (R := str * caps)) in E.
  change (rmatch (length line) (Group 5 (PlusLazy (Chr is_dot))) s4 c4
            (fun s5 c5 =>
               rmatch (length line) (Look (AtLeast 4 sp >> num_pattern))
                      s5 c5 (fun s' c' => Some (s', c')))
          = Some (rest, c)) in E.
  apply rmatch_group_bound in E. destruct E as (s5 & c5 & Hb & E).
  apply rmatch_keeps in E. destruct E as (s6 & c6 & Hk & E).
  inversion E; subst. apply Hk. exact Hb.
Qed.

(** ** [parse_line] never raises *)

Lemma item_first_two (A : Type) (a b : A) l :
  item (a :: b :: l) 0 = Ret a /\ item (a :: b :: l) 1 = Ret b.
Proof.
  unfold item. cbn [length Z.ltb Z.compare].
  assert (H0 : ((0 <=? 0) && (0 <? Z.of_nat (S (S (length l)))))%Z = true).
  { apply andb_true_intro. split; [apply Z.leb_le | apply Z.ltb_lt]; lia. }
  assert (H1 : ((0 <=? 1) && (1 <? Z.of_nat (S (S (length l)))))%Z = true).
  { apply andb_true_intro. split; [apply Z.leb_le | apply Z.ltb_lt]; lia. }
  rewrite H0, H1. split; reflexivity.
Qed.

Lemma item_last (A : Type) (pre : list A) a :
  item (pre ++ [a]) (-1) = Ret a.
Proof.
  unfold item. rewrite length_app. simpl length.
  replace (Z.of_nat (length pre + 1) + -1)%Z with (Z.of_nat (length pre))
    by lia.
  cbn [Z.ltb Z.compare].
  assert (H1 : ((0 <=? Z.of_nat (length pre))
                && (Z.of_nat (length pre) <? Z.of_nat (length pre + 1)))%Z
               = true).
  { apply andb_true_intro. split; [apply Z.leb_le | apply Z.ltb_lt]; lia. }
  rewrite H1, Nat2Z.id, nth_error_app2 by lia.
  rewrite Nat.sub_diag. reflexivity.
Qed.

Lemma amounts_return line t :
  In t (re_findall num_pattern line) -> amount t = Ret (token_value t).
Proof. apply token_amount. Qed.

(** A marker block that takes the last two tokens. *)
Lemma last_two_amounts line :
  2 <= length (re_findall num_pattern line) ->
  exists t2 t1,
    item (re_findall num_pattern line) (-2) = Ret t2 /\
    item (re_findall num_pattern line) (-1) = Ret t1 /\
    amount t2 = Ret (token_value t2) /\ amount t1 = Ret (token_value t1).
Proof.
  intros H. destruct (last_two _ H) as (pre & t2 & t1 & E).
  exists t2, t1. rewrite E.
  destruct (item_last_two pre t2 t1) as [I2 I1].
  repeat split; auto; apply (@amounts_return line); rewrite E;
    apply in_or_app; right; simpl; auto.
Qed.

Lemma saldo_anterior_returns line : returns (saldo_anterior line).
Proof.
  unfold saldo_anterior, returns.
  destruct (contains _ line); [|eauto].
  destruct (2 <=? length (re_findall num_pattern line)) eqn:E; [|eauto].
  apply Nat.leb_le in E.
  destruct (last_two_amounts _ E) as (t2 & t1 & -> & -> & A2 & A1).
  cbn [bind]. rewrite A2, A1. cbn [bind]. eauto.
Qed.

Lemma pagos_returns line : returns (pagos line).
Proof.
  unfold pagos, returns.
  destruct (contains _ line); [|eauto].
  destruct (re_search date_pattern line) as [[? c]|]; [|eauto].
  destruct (2 <=? length (re_findall num_pattern line)) eqn:E; [|eauto].
  apply Nat.leb_le in E.
  destruct (last_two_amounts _ E) as (t2 & t1 & -> & -> & A2 & A1).
  cbn [bind]. rewrite A2, A1. cbn [bind]. eauto.
Qed.

Lemma saldo_contado_returns line : returns (saldo_contado line).
Proof.
  unfold saldo_contado, returns.
  destruct (contains _ line); [|eauto].
  destruct (2 <=? length (re_findall num_pattern line)) eqn:E; [|eauto].
  apply Nat.leb_le in E.
  destruct (last_two_amounts _ E) as (t2 & t1 & -> & -> & A2 & A1).
  cbn [bind]. rewrite A2, A1. cbn [bind]. eauto.
Qed.

Lemma seguro_returns line : returns (seguro line).
Proof.
  unfold seguro, returns.
  destruct (contains _ line); [|eauto].
  destruct (2 <=? length (re_findall num_pattern line)) eqn:E; [|eauto].
  apply Nat.leb_le in E.
  destruct (re_findall num_pattern line) as [|t0 [|t1 l]] eqn:F;
    try (simpl in E; lia).
  destruct (item_first_two t0 t1 l) as [-> ->]. cbn [bind].
  rewrite (@amounts_return line t0), (@amounts_return line t1)
    by (rewrite F; simpl; auto).
  cbn [bind]. eauto.
Qed.

Lemma transaccion_returns line : returns (transaccion line).
Proof.
  unfold transaccion, returns.
  destruct (re_match trans_pattern line) as [[rest c]|] eqn:M; [|eauto].
  apply trans_pattern_desc in M. unfold bound in M.
  destruct (group c 5) as [t|]; [clear M | contradiction].
  cbn [bind].
  set (amounts := re_findall num_pattern (strip rest)).
  assert (Ha : forall t', In t' amounts ->
                          amount t' = Ret (token_value t'))
    by (intros t'; apply amounts_return).
  destruct amounts as [|a0 l] eqn:F; [eauto|].
  destruct (@exists_last _ (a0 :: l) ltac:(discriminate)) as (pre & u & E).
  rewrite E in *. rewrite item_last. cbn [bind].
  assert (Au : amount u = Ret (token_value u))
    by (apply Ha, in_or_app; right; simpl; auto).
  destruct (1 <? length (pre ++ [u])) eqn:L.
  - apply Nat.ltb_lt in L. rewrite length_app in L. simpl in L.
    destruct (@exists_last _ pre ltac:(intros ->; simpl in L; lia))
      as (pre' & v & ->).
    rewrite <- app_assoc. cbn [app].
    destruct (item_last_two pre' v u) as [-> _]. cbn [bind].
    rewrite Au. cbn [bind].
    destruct v as [|b v'].
    + cbn [bind]. eauto.
    + rewrite (Ha (b :: v')) by
          (rewrite <- app_assoc; apply in_or_app; right; simpl; auto).
      cbn [bind]. eauto.
  - cbn [bind]. rewrite Au. cbn [bind]. eauto.
Qed.

Lemma or_next_returns x y : returns x -> returns y -> returns (or_next x y).
Proof.
  intros [[v|] ->] Hy; unfold or_next; cbn [bind].
  - eexists; reflexivity.
  - exact Hy.
Qed.

(** Whatever the line, [parse_line] returns: a record or [None]. *)
Lemma parse_line_returns line : returns (parse_line line).
Proof.
  unfold parse_line.
  destruct (length (rstrip line) <? 20); [eexists; reflexivity|].
  repeat apply or_next_returns;
    auto using saldo_anterior_returns, pagos_returns, seguro_returns,
               saldo_contado_returns, transaccion_returns.
Qed.

Lemma transactions_return lines : returns (transactions lines).
Proof.
  induction lines as [|l ls [recs IH]]; simpl.
  - eexists; reflexivity.
  - destruct (parse_line_returns l) as [p ->]. cbn [bind].
    rewrite IH. cbn [bind]. eexists; reflexivity.
Qed.

(** * Further properties *)

(** ** Trimming *)

Lemma lstrip_spaces ws s :
  Forall (fun a => is_space a = true) ws -> lstrip (ws ++ s) = lstrip s.
Proof.
  induction 1 as [|a ws Ha _ IH]; simpl; [reflexivity|].
  rewrite Ha. exact IH.
Qed.

Lemma rstrip_spaces s ws :
  Forall (fun a => is_space a = true) ws -> rstrip (s ++ ws) = rstrip s.
Proof.
  intros H. unfold rstrip. rewrite rev_app_distr, lstrip_spaces.
  - reflexivity.
  - apply Forall_rev. exact H.
Qed.

(** [lstrip] leaves nothing or a text that starts with a non-space. *)
Lemma lstrip_head s :
  lstrip s = [] \/ exists a t, lstrip s = a :: t /\ is_space a = false.
Proof.
  induction s as [|a s IH]; simpl; [left; reflexivity|].
  destruct (is_space a) eqn:E; [exact IH|].
  right. exists a, s. auto.
Qed.

Lemma lstrip_fixed s : lstrip (lstrip s) = lstrip s.
Proof.
  destruct (lstrip_head s) as [->|(a & t & -> & Ha)]; [reflexivity|].
  apply lstrip_id. exact Ha.
Qed.

Lemma rstrip_fixed s : rstrip (rstrip s) = rstrip s.
Proof.
  unfold rstrip. rewrite rev_involutive, lstrip_fixed. reflexivity.
Qed.

(** [rstrip] does not touch the front of a text that starts with a
    non-space. *)
Lemma rstrip_keeps_head a t :
  is_space a = false -> exists t', rstrip (a :: t) = a :: t'.
Proof.
  intros Ha. unfold rstrip. simpl rev.
  assert (H : forall u, exists t', rev (lstrip (u ++ [a])) = a :: t').
  { induction u as [|b u IH]; simpl.
    - rewrite Ha. exists []. reflexivity.
    - destruct (is_space b); [exact IH|].
      exists (rev u ++ [b]).
      simpl. rewrite rev_app_distr. reflexivity. }
  apply H.
Qed.

Lemma lstrip_rstrip s : lstrip (rstrip (lstrip s)) = rstrip (lstrip s).
Proof.
  destruct (lstrip_head s) as [->|(a & t & -> & Ha)]; [reflexivity|].
  destruct (@rstrip_keeps_head a t Ha) as (t' & ->).
  apply lstrip_id. exact Ha.
Qed.

Lemma strip_fixed s :
  lstrip (strip s) = strip s /\ rstrip (strip s) = strip s.
Proof.
  unfold strip. split; [apply lstrip_rstrip | apply rstrip_fixed].
Qed.

(** ** The shapes of records *)

Ltac break_outcome H :=
  unfold bind in H;
  repeat match type of H with
         | context [match ?x with _ => _ end] =>
           lazymatch x with
           | context [match _ with _ => _ end] => fail
           | _ => destruct x; try discriminate
           end
         end;
  inversion H; subst; clear H.

Ltac shape_done :=
  unfold is_float, is_text; cbn;
  repeat match goal with
         | |- _ /\ _ => split
         | |- exists _, _ = _ => eexists; reflexivity
         | |- ?x = ?x => reflexivity
         end.

Lemma saldo_anterior_shape line r :
  saldo_anterior line = Ret (Some r) -> balance_shape r.
Proof.
  unfold saldo_anterior. intros H. break_outcome H.
  unfold balance_shape. shape_done. left. reflexivity.
Qed.

Lemma saldo_contado_shape line r :
  saldo_contado line = Ret (Some r) -> balance_shape r.
Proof.
  unfold saldo_contado. intros H. break_outcome H.
  unfold balance_shape. shape_done. right. reflexivity.
Qed.

Lemma pagos_shape line r :
  pagos line = Ret (Some r) -> payment_shape r.
Proof.
  unfold pagos. intros H. break_outcome H.
  unfold payment_shape. shape_done.
Qed.

Lemma seguro_shape line r :
  seguro line = Ret (Some r) -> charge_shape r.
Proof.
  unfold seguro. intros H. break_outcome H.
  unfold charge_shape. shape_done.
Qed.

Lemma transaccion_shape line r :
  transaccion line = Ret (Some r) -> transaction_shape r.
Proof.
  unfold transaccion. intros H. break_outcome H;
    unfold transaction_shape; shape_done;
    try (left; reflexivity); right; eexists; reflexivity.
Qed.

(** The rule a record comes from. *)
Lemma parse_line_cases (line0 : str) (r : record) :
  parse_line line0 = Ret (Some r) ->
  let line := rstrip line0 in
  saldo_anterior line = Ret (Some r) \/ pagos line = Ret (Some r) \/
  seguro line = Ret (Some r) \/ saldo_contado line = Ret (Some r) \/
  transaccion line = Ret (Some r).
Proof.
  unfold parse_line. intros H.
  destruct (length (rstrip line0) <? 20); [discriminate|].
  repeat (apply or_next_some in H; destruct H as [H|[_ H]]; [tauto|]).
  tauto.
Qed.

(** X1.  Every record [parse_line] returns has one of four shapes: a
    balance (kind Saldo, description SALDO ANTERIOR or SALDO FINAL), a
    payment (kind Pago, description PAGOS, a date), a charge (kind
    Cargo, description SEGURO DE VIDA), each without code and
    installments and with two float amounts, or a transaction (kind
    Transaccion, text fields, a float local amount, a float or missing
    foreign amount). *)
Theorem record_has_a_shape (line : str) (r : record) :
  parse_line line = Ret (Some r) ->
  balance_shape r \/ payment_shape r \/ charge_shape r \/
  transaction_shape r.
Proof.
  intros H. apply parse_line_cases in H.
  destruct H as [H|[H|[H|[H|H]]]].
  - left. eapply saldo_anterior_shape. exact H.
  - right. left. eapply pagos_shape. exact H.
  - right. right. left. eapply seguro_shape. exact H.
  - left. eapply saldo_contado_shape. exact H.
  - right. right. right. eapply transaccion_shape. exact H.
Qed.

(** X1, at a SALDO CONTADO line. *)
Lemma record_has_a_shape_witness :
  balance_shape saldo_record \/ payment_shape saldo_record \/
  charge_shape saldo_record \/ transaction_shape saldo_record.
Proof.
  apply (@record_has_a_shape saldo_line). vm_compute. reflexivity.
Defined.

(** X2.  [parse_line] raises on no line: every index it takes is in
    range, every group it reads is set, and every token it converts
    is the text of a float. *)
Theorem parse_line_never_raises (line : str) : parse_line line <> Raise.
Proof.
  destruct (parse_line_returns line) as [o ->]. discriminate.
Qed.

(** X3.  Whitespace at the end of a line does not change what
    [parse_line] returns. *)
Theorem parse_line_ignores_trailing_space (line ws : str) :
  Forall (fun a => is_space a = true) ws ->
  parse_line (line ++ ws) = parse_line line.
Proof.
  intros H. unfold parse_line. rewrite (rstrip_spaces line H). reflexivity.
Qed.

(** X3, at a line followed by three blanks. *)
Lemma parse_line_ignores_trailing_space_witness :
  parse_line (netflix_line ++ lit "   ") = parse_line netflix_line.
Proof.
  apply parse_line_ignores_trailing_space.
  repeat constructor.
Defined.

(** X4.  A line of at least 20 characters with the marker SALDO DEL
    ESTADO DE CUENTA ANTERIOR and at least two tokens is the opening
    balance, whatever else it holds (a date, PAGOS, a description):
    the first rule wins, and the amounts are the last two tokens. *)
Theorem saldo_anterior_first (line0 : str) :
  let line := rstrip line0 in
  20 <= length line ->
  contains (lit "SALDO DEL ESTADO DE CUENTA ANTERIOR") line = true ->
  2 <= length (re_findall num_pattern line) ->
  exists pre t2 t1,
    re_findall num_pattern line = pre ++ [t2; t1] /\
    parse_line line0 =
    Ret (Some {| Fecha := PStr []; Codigo := PStr [];
                 Descripcion := PStr (lit "SALDO ANTERIOR");
                 Cuotas := PStr [];
                 Monto_UYU := PFloat (token_value t2);
                 Monto_USD := PFloat (token_value t1);
                 Tipo := PStr (lit "Saldo") |}).
Proof.
  intros line Hlen Hin Htok.
  destruct (last_two _ Htok) as (pre & t2 & t1 & E).
  exists pre, t2, t1. split; [exact E|].
  unfold parse_line. fold line.
  apply Nat.ltb_ge in Hlen. rewrite Hlen.
  unfold saldo_anterior. rewrite Hin.
  apply Nat.leb_le in Htok. rewrite Htok.
  assert (A2 : amount t2 = Ret (token_value t2)).
  { apply (@amounts_return line). rewrite E.
    apply in_or_app. right. left. reflexivity. }
  assert (A1 : amount t1 = Ret (token_value t1)).
  { apply (@amounts_return line). rewrite E.
    apply in_or_app. right. right. left. reflexivity. }
  rewrite E. destruct (item_last_two pre t2 t1) as [I2 I1].
  rewrite I2, I1. cbn [bind]. rewrite A2, A1. reflexivity.
Qed.

(** X4, at a dated line that also holds PAGOS. *)
Lemma saldo_anterior_first_witness :
  exists pre t2 t1,
    re_findall num_pattern (rstrip saldo_anterior_line) = pre ++ [t2; t1] /\
    parse_line saldo_anterior_line =
    Ret (Some {| Fecha := PStr []; Codigo := PStr [];
                 Descripcion := PStr (lit "SALDO ANTERIOR");
                 Cuotas := PStr [];
                 Monto_UYU := PFloat (token_value t2);
                 Monto_USD := PFloat (token_value t1);
                 Tipo := PStr (lit "Saldo") |}).
Proof.
  apply (@saldo_anterior_first saldo_anterior_line).
  - vm_compute. lia.
  - vm_compute. reflexivity.
  - vm_compute. lia.
Defined.

(** X5.  When the two rules before it do not fire, a line of at least
    20 characters with the marker SEGURO DE VIDA SOBRE SALDO and at
    least two tokens is a charge whose amounts are the first two
    tokens of the line, not the last two. *)
Theorem seguro_takes_first_two (line0 : str) :
  let line := rstrip line0 in
  20 <= length line ->
  contains (lit "SEGURO DE VIDA SOBRE SALDO") line = true ->
  2 <= length (re_findall num_pattern line) ->
  contains (lit "SALDO DEL ESTADO DE CUENTA ANTERIOR") line = false ->
  contains (lit "PAGOS") line = false \/
  re_search date_pattern line = None ->
  exists t0 t1 more,
    re_findall num_pattern line = t0 :: t1 :: more /\
    parse_line line0 =
    Ret (Some {| Fecha := PStr []; Codigo := PStr [];
                 Descripcion := PStr (lit "SEGURO DE VIDA");
                 Cuotas := PStr [];
                 Monto_UYU := PFloat (token_value t0);
                 Monto_USD := PFloat (token_value t1);
                 Tipo := PStr (lit "Cargo") |}).
Proof.
  intros line Hlen Hin Htok H1 H2.
  destruct (re_findall num_pattern line) as [|t0 [|t1 more]] eqn:E;
    try (simpl in Htok; lia).
  exists t0, t1, more. split; [reflexivity|].
  unfold parse_line. fold line.
  apply Nat.ltb_ge in Hlen. rewrite Hlen.
  unfold saldo_anterior at 1. rewrite H1, or_next_skip.
  assert (Hp : pagos line = Ret None).
  { unfold pagos. destruct H2 as [-> | ->]; [reflexivity|].
    destruct (contains (lit "PAGOS") line); reflexivity. }
  rewrite Hp, or_next_skip.
  unfold seguro. rewrite Hin, E.
  apply Nat.leb_le in Htok. rewrite Htok.
  destruct (item_first_two t0 t1 more) as [-> ->]. cbn [bind].
  rewrite (@amounts_return line t0), (@amounts_return line t1)
    by (rewrite E; simpl; auto).
  reflexivity.
Qed.

(** X5, at a line with three tokens. *)
Lemma seguro_takes_first_two_witness :
  exists t0 t1 more,
    re_findall num_pattern (rstrip seguro_line) = t0 :: t1 :: more /\
    parse_line seguro_line =
    Ret (Some {| Fecha := PStr []; Codigo := PStr [];
                 Descripcion := PStr (lit "SEGURO DE VIDA");
                 Cuotas := PStr [];
                 Monto_UYU := PFloat (token_value t0);
                 Monto_USD := PFloat (token_value t1);
                 Tipo := PStr (lit "Cargo") |}).
Proof.
  apply (@seguro_takes_first_two seguro_line).
  - vm_compute. lia.
  - vm_compute. reflexivity.
  - vm_compute. lia.
  - vm_compute. reflexivity.
  - left. vm_compute. reflexivity.
Defined.

(** ** The records of a text *)

Lemma split_at_sep sep (t u : str) :
  split sep (t ++ sep :: u) = split sep t ++ split sep u.
Proof.
  induction t as [|a t IH]; simpl.
  - rewrite Ascii.eqb_refl. reflexivity.
  - destruct (Ascii.eqb a sep).
    + rewrite IH. reflexivity.
    + rewrite IH. destruct (split sep t) as [|l ls] eqn:E.
      * exfalso. exact (split_nonempty _ _ E).
      * reflexivity.
Qed.

Lemma text_lines_join (t u : str) :
  text_lines (t ++ newline ++ u) = text_lines t ++ text_lines u.
Proof.
  unfold text_lines, newline. simpl app.
  rewrite split_at_sep, filter_app. reflexivity.
Qed.

Lemma transactions_flat lines :
  transactions lines = Ret (flat_map line_records lines).
Proof.
  induction lines as [|l ls IH]; simpl; [reflexivity|].
  unfold line_records at 1.
  destruct (parse_line_returns l) as [p ->]. cbn [bind].
  rewrite IH. cbn [bind]. destruct p; reflexivity.
Qed.

Lemma line_records_short line : is_long line = false -> line_records line = [].
Proof.
  unfold is_long, line_records, parse_line. intros H.
  apply Nat.leb_gt in H. apply Nat.ltb_lt in H. rewrite H. reflexivity.
Qed.

Lemma line_records_count lines :
  length (flat_map line_records lines) <= length (filter is_long lines).
Proof.
  induction lines as [|l ls IH]; cbn [flat_map filter]; [simpl; lia|].
  rewrite length_app. destruct (is_long l) eqn:E.
  - cbn [length]. unfold line_records at 1.
    destruct (parse_line l) as [|[r|]]; cbn [length]; lia.
  - rewrite (line_records_short _ E). cbn [length]. exact IH.
Qed.

Lemma parse_text_to_csv_flat (w : world) (text : str) :
  parse_text_to_csv w text =
  Ret (if length (text_records text) <? 3 then None
       else Some (to_csv w (records_frame (text_records text)))).
Proof.
  unfold parse_text_to_csv, text_records. rewrite transactions_flat.
  cbn [bind]. destruct (length _ <? 3); reflexivity.
Qed.

(** X6.  [parse_text_to_csv] never raises.  Its records are those of
    the non-blank lines, in order, at most one per line of 20
    characters or more; it returns the CSV of their frame when there
    are at least 3 and [None] otherwise. *)
Theorem parse_text_to_csv_result (w : world) (text : str) :
  transactions (text_lines text) = Ret (text_records text) /\
  length (text_records text) <= length (filter is_long (text_lines text)) /\
  parse_text_to_csv w text =
  Ret (if length (text_records text) <? 3 then None
       else Some (to_csv w (records_frame (text_records text)))).
Proof.
  split; [apply transactions_flat|]. split.
  - apply line_records_count.
  - apply parse_text_to_csv_flat.
Qed.

(** X7.  Lines are parsed one by one: the records of two texts joined
    by a line feed are the records of the first followed by the
    records of the second. *)
Theorem records_of_joined_texts (t u : str) :
  transactions (text_lines (t ++ newline ++ u)) =
  Ret (text_records t ++ text_records u).
Proof.
  unfold text_records.
  rewrite text_lines_join, transactions_flat, flat_map_app. reflexivity.
Qed.

(** X8.  A text with fewer than 3 lines of 20 characters or more
    (trailing whitespace apart) gives no CSV. *)
Theorem few_long_lines_give_nothing (w : world) (text : str) :
  length (filter is_long (text_lines text)) < 3 ->
  parse_text_to_csv w text = Ret None.
Proof.
  intros H. rewrite parse_text_to_csv_flat.
  pose proof (line_records_count (text_lines text)) as Hc.
  assert (E : (length (text_records text) <? 3) = true)
    by (apply Nat.ltb_lt; unfold text_records; lia).
  rewrite E. reflexivity.
Qed.

(** X8, at a text with two long lines, a short one and a blank one. *)
Lemma few_long_lines_give_nothing_witness :
  parse_text_to_csv (demo_world [])
    (netflix_line ++ newline ++ lit "Itau" ++ newline ++ newline
     ++ pagos_line) = Ret None.
Proof.
  apply few_long_lines_give_nothing. vm_compute. lia.
Defined.

(** ** The stages of a run *)

Lemma firstn_window (n : nat) (text more : str) :
  n <= length text -> firstn n (text ++ more) = firstn n text.
Proof.
  intros H. rewrite firstn_app.
  replace (n - length text) with 0 by lia.
  simpl. apply app_nil_r.
Qed.

(** X9.  [parse_with_llm] asks the chat about the first 10,000
    characters of the text, all of it when it is shorter, and returns
    the content of the answer trimmed, or the empty text when there is
    none; an exception of the chat is not caught.  So what comes after
    the 10,000 characters does not change the answer, and what is
    returned has no whitespace at either end. *)
Theorem parse_with_llm_reads_a_window (w : world) (text : str) :
  (exists sent rest,
      text = sent ++ rest /\
      length sent = Nat.min (10 * 1000) (length text) /\
      parse_with_llm w text =
      match chat w sent with
      | Raise => Raise
      | Ret (Some content) => Ret (strip content)
      | Ret None => Ret []
      end) /\
  (forall more, 10 * 1000 <= length text ->
                parse_with_llm w (text ++ more) = parse_with_llm w text) /\
  (forall out, parse_with_llm w text = Ret out ->
               lstrip out = out /\ rstrip out = out).
Proof.
  split; [|split].
  - exists (firstn (10 * 1000) text), (skipn (10 * 1000) text).
    split; [symmetry; apply firstn_skipn|].
    split; [apply length_firstn|].
    unfold parse_with_llm, bind.
    destruct (chat w _) as [|[[|a t]|]]; reflexivity.
  - intros more H. unfold parse_with_llm.
    rewrite (firstn_window _ more H). reflexivity.
  - unfold parse_with_llm, bind. intros out E.
    destruct (chat w _) as [|[[|a t]|]]; try discriminate;
      inversion E; subst; try (split; reflexivity).
    apply strip_fixed.
Qed.

(** X9, at a text of 10,002 characters and at a short one; the chat
    answers with the first three characters it was sent, between
    blanks. *)
Lemma parse_with_llm_reads_a_window_witness :
  parse_with_llm echo_world (long_text ++ lit "yz") =
  parse_with_llm echo_world long_text /\
  (lstrip (lit "xxx") = lit "xxx" /\ rstrip (lit "xxx") = lit "xxx") /\
  parse_with_llm echo_world (lit "abcdef") = Ret (lit "abc").
Proof.
  split; [|split].
  - apply (proj1 (proj2
             (parse_with_llm_reads_a_window echo_world long_text))).
    apply Nat.leb_le. vm_compute. reflexivity.
  - apply (proj2 (proj2
             (parse_with_llm_reads_a_window echo_world long_text))).
    vm_compute. reflexivity.
  - destruct (proj1 (parse_with_llm_reads_a_window echo_world
                       (lit "abcdef")))
      as (sent & rest & E & L & ->).
    assert (Hs : sent = lit "abcdef").
    { assert (Hl : length sent = length (lit "abcdef")) by exact L.
      rewrite E, length_app in Hl.
      destruct rest; [|simpl in Hl; lia].
      rewrite app_nil_r in E. symmetry. exact E. }
    rewrite Hs. reflexivity.
Defined.

Section Cascade.

Variable w : world.
Variable file_path : str.
Variable pages : list page.

Hypothesis Hexists : path_exists w file_path = true.
Hypothesis Hpdf : endswith (lit ".pdf") (lower file_path) = true.
Hypothesis Hopen : pdf_open w file_path = Ret pages.

Lemma pdf_to_csv_opened :
  pdf_to_csv w file_path =
  match table_stage w pages with
  | Raise => ([Tables], None)
  | Ret (Some csv) => ([Tables], Some csv)
  | Ret None =>
    match text_stage w (full_text pages) with
    | Raise => ([Tables; TextParse], None)
    | Ret (Some csv) => ([Tables; TextParse], Some csv)
    | Ret None =>
      ([Tables; TextParse; LLM],
       match parse_with_llm w (full_text pages) with
       | Raise => None
       | Ret out => Some out
       end)
    end
  end.
Proof.
  unfold pdf_to_csv. rewrite Hexists, Hpdf, Hopen. reflexivity.
Qed.

Lemma text_stage_few :
  length (page_records pages) <= 2 ->
  text_stage w (full_text pages) = Ret None.
Proof.
  intros H. unfold text_stage.
  rewrite parse_text_to_csv_flat. fold (page_records pages).
  assert (E : (length (page_records pages) <? 3) = true)
    by (apply Nat.ltb_lt; lia).
  rewrite E. reflexivity.
Qed.

Lemma text_stage_many :
  3 <= length (page_records pages) ->
  to_csv w (records_frame (page_records pages)) <> [] ->
  read_csv_len w (to_csv w (records_frame (page_records pages)))
  = Ret (length (page_records pages)) ->
  text_stage w (full_text pages) =
  Ret (if 3 <? length (page_records pages)
       then Some (to_csv w (records_frame (page_records pages)))
       else None).
Proof.
  intros H Hne Hlen. unfold text_stage.
  rewrite parse_text_to_csv_flat. fold (page_records pages).
  assert (E : (length (page_records pages) <? 3) = false)
    by (apply Nat.ltb_ge; lia).
  rewrite E. cbn [bind].
  destruct (to_csv w (records_frame (page_records pages))) as [|a t];
    [exfalso; apply Hne; reflexivity|].
  rewrite Hlen. cbn [bind].
  destruct (3 <? length (page_records pages)); reflexivity.
Qed.

(** X10.  When the file opens and the table stage does not return, the
    number of records of the text decides: with more than 3 the CSV of
    the text stage is returned and the chat is not asked, with 3 or
    fewer the run ends in the LLM stage.  (The CSV codec is assumed to
    write a non-empty text and to read back one row per record.) *)
Theorem text_stage_decides :
  table_stage w pages = Ret None ->
  to_csv w (records_frame (page_records pages)) <> [] ->
  read_csv_len w (to_csv w (records_frame (page_records pages)))
  = Ret (length (page_records pages)) ->
  pdf_to_csv w file_path =
  if 3 <? length (page_records pages)
  then ([Tables; TextParse],
        Some (to_csv w (records_frame (page_records pages))))
  else ([Tables; TextParse; LLM],
        match parse_with_llm w (full_text pages) with
        | Raise => None
        | Ret out => Some out
        end).
Proof.
  intros Ht Hne Hlen. rewrite pdf_to_csv_opened, Ht.
  destruct (le_lt_dec (length (page_records pages)) 2) as [H|H].
  - rewrite (text_stage_few H).
    assert (E : (3 <? length (page_records pages)) = false)
      by (apply Nat.ltb_ge; lia).
    rewrite E. reflexivity.
  - rewrite (text_stage_many H Hne Hlen).
    destruct (3 <? length (page_records pages)); reflexivity.
Qed.


(** X12.  When no page has a table of two rows or more and no page has
    text, the text is one line feed per page, both stages fall
    through, and the chat is asked about that text. *)
Theorem empty_pages_reach_the_llm :
  (forall p, In p pages ->
             match extract_table p with
             | Some t => length t <= 1
             | None => True
             end /\
             (extract_text p = None \/ extract_text p = Some [])) ->
  full_text pages = repeat "010"%char (length pages) /\
  pdf_to_csv w file_path =
  ([Tables; TextParse; LLM],
   match parse_with_llm w (repeat "010"%char (length pages)) with
   | Raise => None
   | Ret out => Some out
   end).
Proof.
  intros H.
  assert (Htab : page_tables pages = []).
  { unfold page_tables. clear - H.
    induction pages as [|p ps IH]; [reflexivity|]. simpl.
    destruct (H p (or_introl eq_refl)) as [Ht _].
    assert (E : match extract_table p with
                | Some t => if 1 <? length t then [t] else []
                | None => []
                end = []).
    { destruct (extract_table p) as [t|]; [|reflexivity].
      apply Nat.ltb_ge in Ht. rewrite Ht. reflexivity. }
    rewrite E. simpl.
    apply IH. intros q Hq. apply H. right. exact Hq. }
  assert (Htxt : full_text pages = repeat "010"%char (length pages)).
  { rewrite full_text_concat. clear - H.
    induction pages as [|p ps IH]; [reflexivity|]. simpl.
    rewrite IH by (intros q Hq; apply H; right; exact Hq).
    destruct (H p (or_introl eq_refl)) as [_ Hp].
    unfold page_chunk. destruct Hp as [-> | ->]; reflexivity. }
  split; [exact Htxt|].
  assert (Hlines : text_lines (repeat "010"%char (length pages)) = []).
  { unfold text_lines. clear.
    induction (length pages) as [|n IH]; [reflexivity|].
    simpl. exact IH. }
  rewrite pdf_to_csv_opened. unfold table_stage. rewrite Htab.
  rewrite text_stage_few; [rewrite Htxt; reflexivity|].
  unfold page_records, text_records. rewrite Htxt, Hlines. simpl. lia.
Qed.

End Cascade.

(** X10, at texts of four and of three records. *)
Lemma text_stage_decides_witness :
  pdf_to_csv (demo_world (one_page four_lines)) (lit "estado.PDF") =
  ([Tables; TextParse],
   Some (to_csv (demo_world (one_page four_lines))
                (records_frame four_records))) /\
  pdf_to_csv (demo_world (one_page three_lines)) (lit "estado.PDF") =
  ([Tables; TextParse; LLM], Some (lit "Fecha,Codigo")).
Proof.
  split.
  - rewrite (@text_stage_decides
               (demo_world (one_page four_lines)) (lit "estado.PDF")
               (one_page four_lines) eq_refl eq_refl eq_refl eq_refl).
    + vm_compute. reflexivity.
    + vm_compute. discriminate.
    + vm_compute. reflexivity.
  - rewrite (@text_stage_decides
               (demo_world (one_page three_lines)) (lit "estado.PDF")
               (one_page three_lines) eq_refl eq_refl eq_refl eq_refl).
    + vm_compute. reflexivity.
    + vm_compute. discriminate.
    + vm_compute. reflexivity.
Defined.


(** X12, at a page with a header and empty text and a page with neither. *)
Lemma empty_pages_reach_the_llm_witness :
  full_text [first_page; second_page] <> repeat "010"%char 2 /\
  pdf_to_csv (demo_world [blank_page; no_text_page]) (lit "vacio.pdf") =
  ([Tables; TextParse; LLM], Some (lit "Fecha,Codigo")).
Proof.
  split; [vm_compute; discriminate|].
  destruct (@empty_pages_reach_the_llm
              (demo_world [blank_page; no_text_page]) (lit "vacio.pdf")
              [blank_page; no_text_page] eq_refl eq_refl eq_refl)
    as [_ H].
  - intros p [<-|[<-|[]]]; simpl; auto.
  - rewrite H. vm_compute. reflexivity.
Defined.



(** ** Rows of a frame *)

Lemma keep_rows_length (A : Type) (keep : list bool) (cells : list A) :
  length cells = length keep ->
  length (keep_rows keep cells) = length (filter (fun b => b) keep).
Proof.
  revert cells. induction keep as [|b keep IH]; intros cells H.
  - destruct cells; reflexivity.
  - destruct cells as [|c cells]; [discriminate|].
    simpl in H. injection H as H. simpl.
    destruct b; simpl; rewrite IH by exact H; reflexivity.
Qed.

Lemma keep_rows_shorter (A : Type) (keep : list bool) (cells : list A) :
  length (keep_rows keep cells) <= length cells.
Proof.
  revert cells. induction keep as [|b keep IH]; intros cells.
  - destruct cells; simpl; lia.
  - destruct cells as [|c cells]; simpl; [lia|].
    specialize (IH cells). destruct b; simpl; lia.
Qed.

Lemma keep_rows_filter (A : Type) (f : A -> bool) (l : list A) :
  keep_rows (map f l) l = filter f l.
Proof.
  induction l as [|a l IH]; simpl; [reflexivity|].
  rewrite IH. reflexivity.
Qed.

Lemma select_rectangular keep df n :
  rectangular df n -> length keep = n ->
  rectangular (select keep df) (length (filter (fun b => b) keep)).
Proof.
  unfold rectangular, select. intros H Hk.
  apply Forall_map. eapply Forall_impl; [|exact H].
  intros col Hc. simpl. apply keep_rows_length. congruence.
Qed.

Lemma tails_rectangular df n :
  rectangular df (S n) -> rectangular (tails df) n.
Proof.
  unfold rectangular, tails. intros H.
  apply Forall_map. eapply Forall_impl; [|exact H].
  intros [l cells] Hc. simpl in *. destruct cells; [discriminate|].
  simpl in *. lia.
Qed.

Lemma nrows_rectangular (A : Type) (df : list (pyval * list A)) n :
  df <> [] -> rectangular df n -> nrows df = n.
Proof.
  intros Hne H. destruct df as [|[l cells] df]; [contradiction|].
  inversion H; subst. reflexivity.
Qed.

Lemma row_succ df n i :
  rectangular df (S n) -> row df (S i) = row (tails df) i.
Proof.
  unfold rectangular, row, tails. intros H. rewrite map_map.
  apply map_ext_in. intros [l cells] Hin.
  rewrite Forall_forall in H. specialize (H _ Hin). simpl in *.
  destruct cells; [discriminate | reflexivity].
Qed.

Lemma row_zero df n : rectangular df (S n) -> row df 0 = heads df.
Proof.
  unfold rectangular, row, heads. intros H.
  apply map_ext_in. intros [l cells] Hin.
  rewrite Forall_forall in H. specialize (H _ Hin). simpl in *.
  destruct cells; [discriminate | reflexivity].
Qed.

Lemma rows_cons df n :
  df <> [] -> rectangular df (S n) ->
  rows df = heads df :: rows (tails df).
Proof.
  intros Hne H. unfold rows.
  assert (Ht : tails df <> [])
    by (destruct df; [contradiction | discriminate]).
  rewrite (nrows_rectangular Hne H).
  rewrite (nrows_rectangular Ht (tails_rectangular H)).
  cbn [seq map]. rewrite (row_zero H). f_equal.
  rewrite <- seq_shift, map_map.
  apply map_ext. intros i. apply (row_succ i H).
Qed.

Lemma rows_empty df : rectangular df 0 -> rows df = [].
Proof.
  intros H. unfold rows. destruct df as [|[l cells] df]; [reflexivity|].
  inversion H; subst. simpl in *. destruct cells; [reflexivity|discriminate].
Qed.

Lemma select_nil df n :
  rectangular df n -> select [] df = map (fun col => (fst col, [])) df.
Proof.
  intros _. unfold select. apply map_ext. intros [l cells].
  simpl. destruct cells; reflexivity.
Qed.

Lemma select_true keep df n :
  rectangular df (S n) ->
  heads (select (true :: keep) df) = heads df /\
  tails (select (true :: keep) df) = select keep (tails df).
Proof.
  unfold rectangular, heads, tails, select. intros H.
  rewrite !map_map. split; apply map_ext_in; intros [l cells] Hin;
    rewrite Forall_forall in H; specialize (H _ Hin); simpl in *;
    (destruct cells; [discriminate | reflexivity]).
Qed.

Lemma select_false keep df n :
  rectangular df (S n) ->
  select (false :: keep) df = select keep (tails df).
Proof.
  unfold rectangular, tails, select. intros H.
  rewrite map_map. apply map_ext_in. intros [l cells] Hin.
  rewrite Forall_forall in H. specialize (H _ Hin). simpl in *.
  destruct cells; [discriminate | reflexivity].
Qed.

(** Selecting rows of a frame selects them in each column. *)
Lemma rows_select keep :
  forall df, df <> [] -> rectangular df (length keep) ->
             rows (select keep df) = keep_rows keep (rows df).
Proof.
  induction keep as [|b keep IH]; intros df Hne H.
  - rewrite (rows_empty H). simpl.
    apply rows_empty. unfold rectangular, select.
    apply Forall_map. eapply Forall_impl; [|exact H].
    intros [l cells] Hc. simpl in *. destruct cells; reflexivity.
  - simpl length in H. rewrite (rows_cons Hne H).
    assert (Ht : tails df <> [])
      by (destruct df; [contradiction | discriminate]).
    destruct b.
    + destruct (select_true keep H) as [Hh Htl].
      assert (Hs : select (true :: keep) df <> [])
        by (destruct df; [contradiction | discriminate]).
      assert (Hr := @select_rectangular (true :: keep) df _ H eq_refl).
      simpl in Hr. rewrite (rows_cons Hs Hr), Hh, Htl.
      simpl. f_equal. apply IH; [exact Ht | apply tails_rectangular; exact H].
    + rewrite (select_false keep H). simpl.
      apply IH; [exact Ht | apply tails_rectangular; exact H].
Qed.

Lemma dropna_is_select thresh df :
  dropna thresh df =
  select (map (fun r => thresh <=? non_na r) (rows df)) df.
Proof.
  unfold dropna, select, rows. rewrite map_map. reflexivity.
Qed.

(** [dropna] keeps the rows with enough cells, in order, and the
    labels. *)
Lemma dropna_rows (thresh : nat) (df : frame) (n : nat) :
  df <> [] -> rectangular df n ->
  rows (dropna thresh df) =
  filter (fun r => thresh <=? non_na r) (rows df) /\
  map fst (dropna thresh df) = map fst df /\
  rectangular (dropna thresh df) (length (rows (dropna thresh df))).
Proof.
  intros Hne H.
  assert (Hn : length (rows df) = n).
  { unfold rows. rewrite length_map, length_seq.
    apply nrows_rectangular; assumption. }
  assert (Hrows : rows (dropna thresh df) =
                  filter (fun r => thresh <=? non_na r) (rows df)).
  { rewrite dropna_is_select, rows_select.
    - apply keep_rows_filter.
    - exact Hne.
    - rewrite length_map, Hn. exact H. }
  split; [exact Hrows|]. split.
  - unfold dropna. rewrite map_map. reflexivity.
  - rewrite Hrows, dropna_is_select.
    rewrite <- (keep_rows_filter (fun r => thresh <=? non_na r) (rows df)).
    rewrite keep_rows_length by (rewrite length_map; reflexivity).
    apply (@select_rectangular _ df n); [exact H|].
    rewrite length_map. exact Hn.
Qed.

(** ** The table stage *)

Lemma coerce_columns_shape (df : text_frame) (coerced : frame) n :
  coerce_columns df = Ret coerced ->
  rectangular df n ->
  map fst coerced = map fst df /\ rectangular coerced n /\
  nrows coerced = nrows df.
Proof.
  unfold coerce_columns. destruct (existsb _ _); [discriminate|].
  intros E H. inversion E; subst; clear E. split; [|split].
  - rewrite map_map. reflexivity.
  - unfold rectangular in *. apply Forall_map.
    eapply Forall_impl; [|exact H]. intros [l cells] Hc. simpl in *.
    destruct (any_match cells); rewrite length_map; exact Hc.
  - destruct df as [|[l cells] df]; [reflexivity|]. simpl.
    destruct (any_match cells); apply length_map.
Qed.

Lemma nrows_dropna thresh (df : frame) : nrows (dropna thresh df) <= nrows df.
Proof.
  unfold dropna. destruct df as [|[l cells] df]; [simpl; lia|].
  cbn [map nrows fst snd]. apply keep_rows_shorter.
Qed.

Lemma rows_length (df : frame) : length (rows df) = nrows df.
Proof. unfold rows. rewrite length_map, length_seq. reflexivity. Qed.

(** X14.  [clean_df] keeps the labels and the order of the rows; the
    rows of its result are the rows of the coerced frame with at least
    2 cells present, so every row of the result has at least 2 cells
    and there are no more rows than before. *)
Theorem clean_df_keeps_full_rows (df : text_frame) (out : frame) (n : nat) :
  df <> [] -> rectangular df n -> clean_df df = Ret out ->
  (exists coerced,
      coerce_columns df = Ret coerced /\
      rows out = filter (fun r => 2 <=? non_na r) (rows coerced)) /\
  Forall (fun r => 2 <= non_na r) (rows out) /\
  map fst out = map fst df /\
  rectangular out (nrows out) /\
  nrows out <= n.
Proof.
  intros Hne H E. unfold clean_df in E.
  destruct (coerce_columns df) as [|coerced] eqn:C; [discriminate|].
  cbn [bind] in E. inversion E; subst; clear E.
  destruct (coerce_columns_shape C H) as (Hl & Hr & Hn).
  assert (Hc : coerced <> []).
  { intros ->. destruct df; [contradiction | discriminate]. }
  destruct (dropna_rows 2 Hc Hr) as (Hrows & Hlab & Hrect).
  split; [exists coerced; split; [reflexivity | exact Hrows]|].
  split; [|split; [|split]].
  - rewrite Hrows. apply Forall_forall. intros r Hin.
    apply filter_In in Hin. destruct Hin as [_ Hin].
    apply Nat.leb_le. exact Hin.
  - rewrite Hlab. exact Hl.
  - rewrite <- rows_length. exact Hrect.
  - pose proof (nrows_dropna 2 coerced) as Hd.
    rewrite (nrows_rectangular Hc Hr) in Hd. exact Hd.
Qed.

(** X14, at a frame with a row that has one cell. *)
Lemma clean_df_keeps_full_rows_witness :
  (exists coerced,
      coerce_columns sparse_frame = Ret coerced /\
      rows sparse_frame_cleaned =
      filter (fun r => 2 <=? non_na r) (rows coerced)) /\
  Forall (fun r => 2 <= non_na r) (rows sparse_frame_cleaned) /\
  map fst sparse_frame_cleaned = map fst sparse_frame /\
  rectangular sparse_frame_cleaned (nrows sparse_frame_cleaned) /\
  nrows sparse_frame_cleaned <= 3.
Proof.
  apply (@clean_df_keeps_full_rows sparse_frame sparse_frame_cleaned 3).
  - discriminate.
  - repeat constructor.
  - vm_compute. reflexivity.
Defined.

(** X15.  Tables of 5 rows or fewer in all never end the run in the
    table stage: whatever cleaning does, it does not add rows. *)
Theorem small_tables_fall_through (w : world) (pages : list page)
        (combined : text_frame) :
  frame_of_tables w (page_tables pages) = Ret combined ->
  nrows combined <= 5 ->
  forall csv, table_stage w pages <> Ret (Some csv).
Proof.
  intros Hf Hn csv. unfold table_stage.
  destruct (page_tables pages) as [|t ts]; [discriminate|].
  rewrite Hf. cbn [bind]. unfold clean_df.
  destruct (coerce_columns combined) as [|coerced] eqn:C; [discriminate|].
  cbn [bind].
  assert (Hc : nrows coerced = nrows combined).
  { unfold coerce_columns in C. destruct (existsb _ _); [discriminate|].
    inversion C; subst. destruct combined as [|[l cells] df]; [reflexivity|].
    simpl. destruct (any_match cells); apply length_map. }
  pose proof (nrows_dropna 2 coerced) as Hd.
  assert (E : (5 <? nrows (dropna 2 coerced)) = false)
    by (apply Nat.ltb_ge; lia).
  rewrite E. discriminate.
Qed.

(** X15, at a table of five rows. *)
Lemma small_tables_fall_through_witness :
  table_stage five_row_world
    [ {| extract_table := Some five_row_table; extract_text := None |} ]
  <> Ret (Some (csv_header ++ newline)).
Proof.
  apply (@small_tables_fall_through five_row_world _ five_row_frame).
  - reflexivity.
  - vm_compute. lia.
Defined.

(** ** The coercion of cells *)

Lemma coerce_chain t :
  replace (lit ".") [] (replace (lit ",") (lit ".") t) =
  filter (fun a => negb (is_separator a)) t.
Proof.
  change (lit ".") with ["."%char]. change (lit ",") with [","%char].
  rewrite !replace_char. induction t as [|a t IH]; [reflexivity|].
  cbn [flat_map filter]. rewrite flat_map_app, IH. clear IH.
  destruct (ascii_dec a ",") as [-> | Hc]; [reflexivity|].
  destruct (ascii_dec a ".") as [-> | Hd]; [reflexivity|].
  unfold subst_char at 2.
  assert (E1 : Ascii.eqb "," a = false)
    by (apply Ascii.eqb_neq; congruence).
  assert (E2 : Ascii.eqb "." a = false)
    by (apply Ascii.eqb_neq; congruence).
  rewrite E1. cbn [flat_map app]. unfold subst_char at 1. rewrite E2.
  unfold is_separator, is_char.
  rewrite (Ascii.eqb_sym a "."), (Ascii.eqb_sym a ","), E1, E2.
  reflexivity.
Qed.

Lemma digit_not_separator a : is_digit a = true -> is_separator a = false.
Proof. unfold is_separator. by_cases_on_char a. Qed.

Lemma float_integer neg d0 ds tail :
  Forall (fun a => is_digit a = true) (d0 :: ds) ->
  tail = [] \/ tail = ["010"%char] ->
  float (minus_sign neg ++ (d0 :: ds) ++ tail) =
  Ret (decimal neg (digits_val (d0 :: ds)) 0).
Proof.
  intros Hds Htail.
  assert (Hd0 : is_digit d0 = true) by (inversion Hds; assumption).
  destruct (exists_last (l := d0 :: ds) ltac:(discriminate))
    as (front & dl & Efront).
  assert (Hdl : is_digit dl = true).
  { rewrite Efront in Hds. apply Forall_app in Hds.
    destruct Hds as [_ Hds]. inversion Hds; assumption. }
  assert (Hstrip : strip (minus_sign neg ++ (d0 :: ds) ++ tail)
                   = minus_sign neg ++ (d0 :: ds)).
  { unfold strip.
    assert (Hl : lstrip (minus_sign neg ++ (d0 :: ds) ++ tail)
                 = minus_sign neg ++ (d0 :: ds) ++ tail).
    { destruct neg; simpl; [reflexivity|].
      rewrite (digit_not_space _ Hd0). reflexivity. }
    rewrite Hl, app_assoc, rstrip_spaces.
    - rewrite Efront, app_assoc. apply rstrip_id.
      apply digit_not_space. exact Hdl.
    - destruct Htail as [-> | ->]; repeat constructor. }
  unfold float. rewrite Hstrip.
  assert (Hsign : sign_of (minus_sign neg ++ (d0 :: ds)) = (neg, d0 :: ds)).
  { destruct neg; simpl; [reflexivity|].
    destruct (digit_not_punct _ Hd0) as (_ & _ & Hm & Hp).
    rewrite Hm, Hp. reflexivity. }
  rewrite Hsign.
  rewrite <- (app_nil_r (d0 :: ds)) at 1.
  rewrite (span_app is_digit [] Hds) by exact I.
  cbn [app]. rewrite app_nil_r. reflexivity.
Qed.

Lemma digit_not_c_space a : is_digit a = true -> is_c_space a = false.
Proof. by_cases_on_char a. Qed.

Lemma digit_not_letter_i a :
  is_digit a = true -> Ascii.eqb (lower_char a) "i" = false.
Proof. by_cases_on_char a. Qed.

Lemma str_eqb_refl s : str_eqb s s = true.
Proof.
  unfold str_eqb. destruct (list_eq_dec ascii_dec s s); congruence.
Qed.

Lemma str_eqb_head a s b t : Ascii.eqb a b = false ->
  str_eqb (a :: s) (b :: t) = false.
Proof.
  intros H. unfold str_eqb.
  destruct (list_eq_dec ascii_dec (a :: s) (b :: t)) as [E|_];
    [|reflexivity].
  inversion E; subst. rewrite Ascii.eqb_refl in H. discriminate.
Qed.

Lemma c_ltrim_app w a t :
  Forall (fun b => is_c_space b = true) w -> is_c_space a = false ->
  c_ltrim (w ++ a :: t) = a :: t.
Proof.
  intros Hw Ha. induction Hw as [|b w Hb _ IH]; simpl.
  - rewrite Ha. reflexivity.
  - rewrite Hb. exact IH.
Qed.

(** No text that starts with a digit, signed or not, spells infinity. *)
Lemma infinity_of_digit neg d0 rest :
  is_digit d0 = true -> infinity_of (minus_sign neg ++ d0 :: rest) = None.
Proof.
  intros Hd0. unfold infinity_of.
  assert (Hsign : sign_of (minus_sign neg ++ d0 :: rest)
                  = (neg, d0 :: rest)).
  { destruct neg; simpl; [reflexivity|].
    destruct (digit_not_punct _ Hd0) as (_ & _ & Hm & Hp).
    rewrite Hm, Hp. reflexivity. }
  rewrite Hsign. cbn [lower map].
  change (lit "inf") with ("i"%char :: lit "nf").
  change (lit "infinity") with ("i"%char :: lit "nfinity").
  rewrite !str_eqb_head by (apply digit_not_letter_i; exact Hd0).
  reflexivity.
Qed.

(** [pd.to_numeric] on a run of digits, signed or not, possibly
    followed by a line feed. *)
Lemma to_numeric_integer neg d0 ds tail :
  Forall (fun a => is_digit a = true) (d0 :: ds) ->
  tail = [] \/ tail = ["010"%char] ->
  to_numeric (minus_sign neg ++ (d0 :: ds) ++ tail) =
  PFloat (decimal neg (digits_val (d0 :: ds)) 0).
Proof.
  intros Hds Htail.
  assert (Hd0 : is_digit d0 = true) by (inversion Hds; assumption).
  destruct (exists_last (l := d0 :: ds) ltac:(discriminate))
    as (front & dl & Efront).
  assert (Hdl : is_digit dl = true).
  { rewrite Efront in Hds. apply Forall_app in Hds.
    destruct Hds as [_ Hds]. inversion Hds; assumption. }
  unfold to_numeric.
  change (minus_sign neg ++ (d0 :: ds) ++ tail)
    with (minus_sign neg ++ d0 :: (ds ++ tail)).
  rewrite (@infinity_of_digit neg d0 (ds ++ tail) Hd0).
  change (minus_sign neg ++ d0 :: (ds ++ tail))
    with (minus_sign neg ++ (d0 :: ds) ++ tail).
  assert (Htrim : c_trim (minus_sign neg ++ (d0 :: ds) ++ tail)
                  = minus_sign neg ++ (d0 :: ds)).
  { unfold c_trim.
    assert (Hl : c_ltrim (minus_sign neg ++ (d0 :: ds) ++ tail)
                 = minus_sign neg ++ (d0 :: ds) ++ tail).
    { destruct neg; simpl; [reflexivity|].
      rewrite (digit_not_c_space _ Hd0). reflexivity. }
    rewrite Hl, Efront, !rev_app_distr. simpl rev at 2. simpl app at 2.
    rewrite <- app_assoc. simpl app at 2.
    rewrite c_ltrim_app;
      [| destruct Htail as [-> | ->]; repeat constructor
       | apply digit_not_c_space; exact Hdl].
    change (dl :: rev front ++ rev (minus_sign neg))
      with ((dl :: rev front) ++ rev (minus_sign neg)).
    rewrite rev_app_distr, rev_involutive. simpl rev.
    rewrite rev_involutive. reflexivity. }
  rewrite Htrim.
  assert (Hstrip : strip (minus_sign neg ++ (d0 :: ds))
                   = minus_sign neg ++ (d0 :: ds)).
  { unfold strip.
    assert (Hl : lstrip (minus_sign neg ++ (d0 :: ds))
                 = minus_sign neg ++ (d0 :: ds)).
    { destruct neg; simpl; [reflexivity|].
      rewrite (digit_not_space _ Hd0). reflexivity. }
    rewrite Hl, Efront, app_assoc. apply rstrip_id.
    apply digit_not_space. exact Hdl. }
  rewrite Hstrip, str_eqb_refl.
  rewrite <- (app_nil_r (d0 :: ds)) at 1.
  rewrite float_integer; [reflexivity | exact Hds | left; reflexivity].
Qed.

(** A text made of a sign, digits and separators starting with a
    digit, and possibly a final line feed. *)
Lemma coerce_digits neg d0 body tail :
  is_digit d0 = true ->
  Forall (fun a => is_digit a = true \/ is_separator a = true) body ->
  tail = [] \/ tail = ["010"%char] ->
  let t := minus_sign neg ++ (d0 :: body) ++ tail in
  coerce_cell (Some t) = PFloat (digits_as_integer t).
Proof.
  intros Hd0 Hbody Htail t.
  assert (Hb : filter (fun a => negb (is_separator a)) body
               = filter is_digit body /\
               Forall (fun a => is_digit a = true) (filter is_digit body)).
  { clear - Hbody. induction Hbody as [|a body [Ha|Ha] _ [IH1 IH2]]; simpl.
    - split; [reflexivity | constructor].
    - rewrite Ha, (digit_not_separator _ Ha). simpl. rewrite IH1.
      split; [reflexivity | constructor; assumption].
    - rewrite Ha. simpl.
      assert (Hn : is_digit a = false).
      { destruct (is_digit a) eqn:E; [|reflexivity].
        rewrite (digit_not_separator _ E) in Ha. discriminate. }
      rewrite Hn. split; assumption. }
  destruct Hb as [Hb1 Hb2].
  assert (Hsign1 : filter (fun a => negb (is_separator a)) (minus_sign neg)
                   = minus_sign neg) by (destruct neg; reflexivity).
  assert (Hsign2 : filter is_digit (minus_sign neg) = [])
    by (destruct neg; reflexivity).
  assert (Htail1 : filter (fun a => negb (is_separator a)) tail = tail)
    by (destruct Htail as [-> | ->]; reflexivity).
  assert (Htail2 : filter is_digit tail = [])
    by (destruct Htail as [-> | ->]; reflexivity).
  unfold coerce_cell. rewrite coerce_chain. subst t.
  rewrite !filter_app, Hsign1, Htail1. cbn [filter].
  rewrite (digit_not_separator _ Hd0). cbn [negb]. rewrite Hb1.
  rewrite to_numeric_integer; [| constructor; assumption | exact Htail].
  unfold digits_as_integer.
  rewrite !filter_app, Hsign2, Htail2. cbn [filter app].
  rewrite Hd0, app_nil_r. f_equal. f_equal.
  destruct neg; [reflexivity|].
  symmetry. apply digit_not_minus. exact Hd0.
Qed.

Lemma numeric_cell_shape t :
  cell_matches (Some t) = true ->
  exists neg d0 body tail,
    t = minus_sign neg ++ (d0 :: body) ++ tail /\
    is_digit d0 = true /\
    Forall (fun a => is_digit a = true \/ is_separator a = true) body /\
    (tail = [] \/ tail = ["010"%char]).
Proof.
  unfold cell_matches, re_match, match_at, numeric_cell_pattern.
  destruct (rmatch _ _ _ _ _) as [[rest c]|] eqn:E; [intros _|discriminate].
  apply rmatch_seq_sound in E. destruct E as (s1 & c1 & M1 & E).
  apply rmatch_seq_sound in E. destruct E as (s2 & c2 & M2 & E).
  apply rmatch_seq_sound in E. destruct E as (s3 & c3 & M3 & E).
  apply rmatch_seq_sound in E. destruct E as (s4 & c4 & M4 & E).
  apply rmatch_seq_sound in E. destruct E as (s5 & c5 & M5 & E).
  apply inv_bol in M1. subst s1.
  apply inv_plus_chr in M3. destruct M3 as (d0 & ds & -> & Hd0 & Hds).
  apply matches_star_chr in M5. destruct M5 as (ds2 & -> & Hds2).
  assert (Htail : s5 = [] \/ s5 = ["010"%char]).
  { cbn [rmatch] in E. destruct s5 as [|a [|b s5]]; [auto | | discriminate].
    destruct (is_char "010" a) eqn:Ea; [|discriminate].
    apply is_char_eq in Ea. subst a. auto. }
  assert (Hdig : forall u,
             Forall (fun a => is_digit a = true) u ->
             Forall (fun a => is_digit a = true \/ is_separator a = true)
                    u).
  { intros u. apply Forall_impl. auto. }
  assert (Hbody : exists body,
             ds ++ s3 = body ++ s5 /\
             Forall (fun a => is_digit a = true \/ is_separator a = true) body).
  { apply inv_opt_chr in M4. destruct M4 as [-> | (a & -> & Ha)].
    - exists (ds ++ ds2). rewrite <- app_assoc. split; [reflexivity|].
      apply Forall_app. split; apply Hdig; assumption.
    - exists (ds ++ a :: ds2). rewrite <- app_assoc. split; [reflexivity|].
      apply Forall_app. split; [apply Hdig; assumption|].
      constructor; [right; exact Ha | apply Hdig; assumption]. }
  destruct Hbody as (body & Eb & Hb).
  apply inv_opt_chr in M2. destruct M2 as [-> | (a & -> & Ha)].
  - exists false, d0, body, s5. cbn [minus_sign app]. rewrite Eb. auto.
  - apply is_char_eq in Ha. subst a.
    exists true, d0, body, s5. cbn [minus_sign app]. rewrite Eb. auto.
Qed.

(** X16.  The coercion of [clean_df] deletes every point and every
    comma before it parses a cell.  A cell that matches the column
    test, and every token of [num_pattern], becomes the integer its
    digits spell: [parse_line] reads the same token as that integer
    over 100. *)
Theorem clean_df_reads_digits_only (t : str) :
  coerce_cell (Some t) =
  to_numeric (filter (fun a => negb (is_separator a)) t) /\
  (cell_matches (Some t) = true ->
   coerce_cell (Some t) = PFloat (digits_as_integer t)) /\
  (matches num_pattern t [] ->
   coerce_cell (Some t) = PFloat (digits_as_integer t) /\
   amount t = Ret (token_value t)).
Proof.
  split; [|split].
  - unfold coerce_cell. rewrite coerce_chain. reflexivity.
  - intros H. apply numeric_cell_shape in H.
    destruct H as (neg & d0 & body & tail & -> & Hd0 & Hb & Ht).
    apply coerce_digits; assumption.
  - intros H. apply num_pattern_shape in H.
    destruct H as (neg & d0 & body & d1 & d2 & -> & Hd0 & Hb & Hd1 & Hd2).
    split.
    + replace (minus_sign neg ++ d0 :: body ++ [","%char; d1; d2])
        with (minus_sign neg ++ (d0 :: body ++ [","%char; d1; d2]) ++ [])
        by (rewrite app_nil_r; reflexivity).
      apply coerce_digits; [exact Hd0 | | left; reflexivity].
      apply Forall_app. split.
      * eapply Forall_impl; [|exact Hb].
        intros a [Ha | ->]; [left; exact Ha | right; reflexivity].
      * apply Forall_cons; [right; reflexivity|].
        apply Forall_cons; [left; exact Hd1|].
        apply Forall_cons; [left; exact Hd2 | constructor].
    + destruct (@amount_of_shape neg d0 body d1 d2 Hd0 Hb Hd1 Hd2) as [E ->].
      unfold token_value. rewrite E. reflexivity.
Qed.

(** X16, at a cell with a point and at a token; and at three cells
    without digits only: a point inside "inf", a no-break space before
    a digit, a line feed after one. *)
Lemma clean_df_reads_digits_only_witness :
  coerce_cell (Some (lit "12.5")) = PFloat 125 /\
  coerce_cell (Some (lit "-1.234.567,89")) = PFloat (-123456789) /\
  amount (lit "-1.234.567,89") = Ret (Qred (-1234567.89)) /\
  coerce_cell (Some (lit "-In.f")) = PInf true /\
  coerce_cell (Some ("160"%char :: lit "7")) = PNone /\
  coerce_cell (Some (lit "7" ++ newline)) = PFloat 7.
Proof.
  split; [|split; [|split; [|split; [|split]]]].
  - rewrite (proj1 (proj2 (clean_df_reads_digits_only (lit "12.5")))).
    + vm_compute. reflexivity.
    + vm_compute. reflexivity.
  - destruct (proj2 (proj2
               (clean_df_reads_digits_only (lit "-1.234.567,89"))))
      as [H _].
    + eapply (match_at_sound 13 num_pattern (lit "-1.234.567,89")).
      vm_compute. reflexivity.
    + rewrite H. vm_compute. reflexivity.
  - vm_compute. reflexivity.
  - rewrite (proj1 (clean_df_reads_digits_only _)).
    vm_compute. reflexivity.
  - rewrite (proj1 (clean_df_reads_digits_only _)).
    vm_compute. reflexivity.
  - rewrite (proj1 (clean_df_reads_digits_only _)).
    vm_compute. reflexivity.
Defined.

(** ** The matcher finds every match *)

Lemma star_loop_at_least (R : Type) body g (k : str -> caps -> option R)
      fuel s c :
  is_some (k s c) = true ->
  is_some (star_loop body g k fuel s c) = true.
Proof.
  intros H. destruct fuel as [|f]; cbn [star_loop]; [exact H|].
  destruct g.
  - destruct (body s c _); [reflexivity | exact H].
  - destruct (k s c); [reflexivity | discriminate].
Qed.

Lemma matches_shorter r s s' : matches r s s' -> length s' <= length s.
Proof.
  intros H. destruct (matches_split H) as (u & ->).
  rewrite length_app. lia.
Qed.

Lemma rmatch_complete r s s' :
  matches r s s' -> anchor_free r = true ->
  forall (R : Type) n c (k : str -> caps -> option R),
    (forall c', is_some (k s' c') = true) ->
    is_some (rmatch n r s c k) = true.
Proof.
  induction 1 as [s | p a s Hp | r1 r2 s s1 s2 H1 IH1 H2 IH2
                  | r1 r2 s s' H1 IH1 | r1 r2 s s' H2 IH2
                  | g r s | g r s s1 s2 H1 IH1 H2 IH2
                  | i r s s' H1 IH1 | r s s1 H1 IH1 | s | s];
    intros Ha R n c k Hk; cbn [anchor_free] in Ha;
    try discriminate.
  - apply Hk.
  - cbn [rmatch]. rewrite Hp. apply Hk.
  - apply andb_prop in Ha. destruct Ha as [Ha1 Ha2].
    cbn [rmatch]. apply IH1; [exact Ha1|].
    intros c'. apply IH2; assumption.
  - apply andb_prop in Ha. destruct Ha as [Ha1 Ha2].
    cbn [rmatch]. specialize (IH1 Ha1 R n c k Hk).
    destruct (rmatch n r1 s c k); [reflexivity | discriminate].
  - apply andb_prop in Ha. destruct Ha as [Ha1 Ha2].
    cbn [rmatch]. destruct (rmatch n r1 s c k); [reflexivity|].
    apply IH2; assumption.
  - cbn [rmatch]. apply star_loop_at_least. apply Hk.
  - destruct (Nat.eq_dec (length s1) (length s)) as [E|E].
    + destruct (matches_split H1) as (u & ->).
      rewrite length_app in E. destruct u; [|simpl in E; lia].
      apply IH2; assumption.
    + pose proof (matches_shorter H1) as Hle.
      cbn [rmatch]. destruct (length s) as [|f] eqn:El; [lia|].
      cbn [star_loop].
      set (again := fun s0 c0 =>
                      if length s0 <? length s
                      then star_loop (fun s2 c2 k1 => rmatch n r s2 c2 k1)
                                     g k f s0 c0
                      else None).
      assert (Hb : is_some (rmatch n r s c again) = true).
      { apply IH1; [exact Ha|]. intros c'. unfold again.
        assert (Hlt : (length s1 <? length s) = true)
          by (apply Nat.ltb_lt; lia).
        rewrite Hlt. rewrite star_fuel_enough by lia.
        apply IH2; assumption. }
      destruct g.
      * destruct (rmatch n r s c again); [reflexivity | discriminate].
      * destruct (k s c); [reflexivity | exact Hb].
  - cbn [rmatch]. apply IH1; [exact Ha|]. intros c'. apply Hk.
  - cbn [rmatch].
    assert (Hi : is_some (rmatch n r s c (fun _ c1 => Some c1)) = true)
      by (apply IH1; [exact Ha | reflexivity]).
    destruct (rmatch n r s c (fun _ c1 => Some c1)); [apply Hk | discriminate].
Qed.

(** ** The lookahead of the transaction pattern *)

Lemma plain_anchor_free r : plain r = true -> anchor_free r = true.
Proof.
  induction r; simpl; intros H; try reflexivity; try discriminate;
    try (apply andb_prop in H; destruct H as [H1 H2];
         rewrite IHr1, IHr2 by assumption; reflexivity);
    auto.
Qed.

(** What a plain pattern consumes, it consumes before any text. *)
Lemma matches_frame r s s' :
  matches r s s' -> plain r = true ->
  exists u, s = u ++ s' /\ forall t, matches r (u ++ t) t.
Proof.
  induction 1 as [s | p a s Hp | r1 r2 s s1 s2 H1 IH1 H2 IH2
                  | r1 r2 s s' H1 IH1 | r1 r2 s s' H2 IH2
                  | g r s | g r s s1 s2 H1 IH1 H2 IH2
                  | i r s s' H1 IH1 | r s s1 H1 IH1 | s | s];
    intros Hp'; cbn [plain] in Hp'; try discriminate.
  - exists []. split; [reflexivity | intros; constructor].
  - exists [a]. split; [reflexivity | intros; constructor; exact Hp].
  - apply andb_prop in Hp'. destruct Hp' as [P1 P2].
    destruct (IH1 P1) as (u1 & -> & F1). destruct (IH2 P2) as (u2 & -> & F2).
    exists (u1 ++ u2). split; [apply app_assoc|].
    intros t. rewrite <- app_assoc. econstructor; [apply F1 | apply F2].
  - apply andb_prop in Hp'. destruct Hp' as [P1 P2].
    destruct (IH1 P1) as (u & -> & F). exists u.
    split; [reflexivity | intros; apply M_AltL; apply F].
  - apply andb_prop in Hp'. destruct Hp' as [P1 P2].
    destruct (IH2 P2) as (u & -> & F). exists u.
    split; [reflexivity | intros; apply M_AltR; apply F].
  - exists []. split; [reflexivity | intros; constructor].
  - destruct (IH1 Hp') as (u1 & -> & F1).
    destruct (IH2 Hp') as (u2 & -> & F2).
    exists (u1 ++ u2). split; [apply app_assoc|].
    intros t. rewrite <- app_assoc. eapply M_StarS; [apply F1 | apply F2].
  - destruct (IH1 Hp') as (u & -> & F). exists u.
    split; [reflexivity | intros; constructor; apply F].
Qed.

Lemma lstrip_app_nonspace x b y :
  is_space b = false -> lstrip (x ++ b :: y) = lstrip x ++ b :: y.
Proof.
  intros Hb. induction x as [|a x IH]; simpl.
  - rewrite Hb. reflexivity.
  - destruct (is_space a); [exact IH | reflexivity].
Qed.

Lemma rstrip_after_nonspace u b v :
  is_space b = false -> rstrip (u ++ b :: v) = u ++ b :: rstrip v.
Proof.
  intros Hb. unfold rstrip.
  rewrite rev_app_distr. simpl rev. rewrite <- app_assoc. simpl app.
  rewrite (@lstrip_app_nonspace _ _ _ Hb).
  rewrite rev_app_distr. simpl rev.
  rewrite rev_involutive, <- app_assoc. reflexivity.
Qed.

(** The lookahead of [trans_pattern] held where the match ended. *)
Lemma trans_pattern_lookahead line rest c :
  re_match trans_pattern line = Some (rest, c) ->
  exists ws s6 s7,
    rest = ws ++ s6 /\ Forall (fun a => is_space a = true) ws /\
    matches num_pattern s6 s7.
Proof.
  unfold re_match, match_at, trans_pattern, trans_tail. intros E.
  apply rmatch_seq_sound in E. destruct E as (s1 & c1 & _ & E).
  apply rmatch_seq_sound in E. destruct E as (s2 & c2 & _ & E).
  apply rmatch_seq_sound in E. destruct E as (s3 & c3 & _ & E).
  apply rmatch_seq_sound in E. destruct E as (s4 & c4 & _ & E).
  apply rmatch_seq_sound in E. destruct E as (s5 & c5 & _ & E).
  change (match rmatch (length line) (AtLeast 4 sp >> num_pattern) s5 c5
                  (fun _ c0 => Some c0) with
          | Some c0 => Some (s5, c0)
          | None => None
          end = Some (rest, c)) in E.
  destruct (rmatch _ (AtLeast 4 sp >> num_pattern) s5 c5 _) as [c0|] eqn:L;
    [|discriminate].
  inversion E; subst; clear E.
  apply rmatch_sound in L. destruct L as (s7 & c7 & M & _).
  apply inv_seq in M. destruct M as (s6 & Mw & Mn).
  unfold AtLeast in Mw. apply inv_seq in Mw. destruct Mw as (sa & M4 & Ms).
  unfold sp in *.
  apply matches_star_chr in Ms. destruct Ms as (w2 & -> & Hw2).
  cbn [Times] in M4.
  apply inv_seq in M4. destruct M4 as (x1 & A1 & M4).
  apply inv_seq in M4. destruct M4 as (x2 & A2 & M4).
  apply inv_seq in M4. destruct M4 as (x3 & A3 & A4).
  apply inv_chr in A1, A2, A3, A4.
  destruct A1 as (a1 & -> & Ha1), A2 as (a2 & -> & Ha2),
           A3 as (a3 & -> & Ha3), A4 as (a4 & E4 & Ha4).
  subst x3.
  exists (a1 :: a2 :: a3 :: a4 :: w2), s6, s7.
  split; [reflexivity|]. split; [|exact Mn].
  repeat (apply Forall_cons; [assumption|]). exact Hw2.
Qed.

(** After a match of [trans_pattern], an amount follows. *)
Lemma trans_pattern_amounts line rest c :
  re_match trans_pattern line = Some (rest, c) ->
  re_findall num_pattern (strip rest) <> [].
Proof.
  intros E. apply trans_pattern_lookahead in E.
  destruct E as (ws & s6 & s7 & -> & Hws & M).
  destruct (matches_frame M eq_refl) as (u & -> & F).
  pose proof (F s7) as M7. apply num_pattern_shape in M7.
  destruct M7 as (neg & d0 & body & d1 & d2 & Eu & Hd0 & _ & _ & Hd2).
  assert (Eu' : u = minus_sign neg ++ d0 :: body ++ [","%char; d1; d2]).
  { apply (app_inv_tail s7). rewrite Eu, <- app_assoc. simpl.
    rewrite <- app_assoc. reflexivity. }
  assert (Hstrip : strip (ws ++ u ++ s7) = u ++ rstrip s7).
  { unfold strip. rewrite (lstrip_spaces _ Hws).
    assert (Hl : lstrip (u ++ s7) = u ++ s7).
    { rewrite Eu'. destruct neg; simpl; [reflexivity|].
      rewrite (digit_not_space _ Hd0). reflexivity. }
    rewrite Hl, Eu'.
    replace ((minus_sign neg ++ d0 :: body ++ [","%char; d1; d2]) ++ s7)
      with ((minus_sign neg ++ d0 :: body ++ [","%char; d1]) ++ d2 :: s7)
      by (rewrite <- !app_assoc; simpl; rewrite <- !app_assoc; reflexivity).
    rewrite (@rstrip_after_nonspace _ _ _ (digit_not_space _ Hd2)).
    rewrite <- !app_assoc. simpl. rewrite <- !app_assoc. reflexivity. }
  rewrite Hstrip. intros Hnil.
  pose proof (@findall_from_nil _ _ _ Hnil [] (u ++ rstrip s7) eq_refl)
    as Hnone.
  assert (Hs : is_some (match_at (length (u ++ rstrip s7)) num_pattern
                                 (u ++ rstrip s7)) = true).
  { unfold match_at.
    apply (rmatch_complete (F (rstrip s7)) eq_refl). reflexivity. }
  rewrite Hnone in Hs. discriminate.
Qed.

(** Every text that [findall] returns for [num_pattern] has the token
    shape; in particular it is not empty. *)
Lemma token_shape n skip s tok :
  In tok (findall_from n num_pattern skip s) ->
  exists (neg : bool) d0 body d1 d2,
    tok = minus_sign neg ++ d0 :: body ++ [","%char; d1; d2] /\
    is_digit d0 = true /\ Forall digit_or_dot body /\
    is_digit d1 = true /\ is_digit d2 = true.
Proof.
  intros H. apply findall_from_in in H.
  destruct H as (p & t & [rest c] & _ & _ & Hm & ->). simpl fst.
  apply match_at_sound in Hm. apply num_pattern_shape in Hm.
  destruct Hm as (neg & d0 & body & d1 & d2 & -> & Hd0 & Hb & Hd1 & Hd2).
  replace (minus_sign neg ++ d0 :: body ++ ","%char :: d1 :: d2 :: rest)
    with ((minus_sign neg ++ d0 :: body ++ [","%char; d1; d2]) ++ rest)
    by (rewrite <- app_assoc; simpl; rewrite <- app_assoc; reflexivity).
  rewrite firstn_matched. exists neg, d0, body, d1, d2. auto.
Qed.

Lemma token_nonempty n skip s tok :
  In tok (findall_from n num_pattern skip s) -> tok <> [].
Proof.
  intros H. apply token_shape in H.
  destruct H as (neg & d0 & body & d1 & d2 & -> & _).
  destruct neg; discriminate.
Qed.

(** X17.  A line the transaction pattern matches always gives a
    Transaction record: the lookahead of the pattern guarantees a
    token after the description, so the last [if amounts:] of
    [parse_line] never fails.  The local amount is the last token
    after the description, the foreign amount the one before it, if
    there is one. *)
Theorem matched_line_is_a_transaction line rest c :
  re_match trans_pattern line = Some (rest, c) ->
  exists r,
    transaccion line = Ret (Some r) /\ Tipo r = PStr Transaccion /\
    amounts_of (re_findall num_pattern (strip rest)) r.
Proof.
  intros M. pose proof M as Hne. apply trans_pattern_amounts in Hne.
  unfold transaccion. rewrite M.
  apply trans_pattern_desc in M. unfold bound in M.
  destruct (group c 5) as [t|]; [clear M | contradiction].
  cbn [bind]. unfold amounts_of.
  set (amounts := re_findall num_pattern (strip rest)) in *.
  assert (Ha : forall t', In t' amounts ->
                          amount t' = Ret (token_value t') /\ t' <> []).
  { intros t' Hin. split.
    - eapply amounts_return. exact Hin.
    - eapply token_nonempty. exact Hin. }
  destruct amounts as [|a0 l] eqn:F; [contradiction|].
  destruct (@exists_last _ (a0 :: l) ltac:(discriminate)) as (pre & u & E).
  rewrite E in *. rewrite item_last. cbn [bind].
  assert (Au : amount u = Ret (token_value u))
    by (apply Ha, in_or_app; right; simpl; auto).
  destruct (1 <? length (pre ++ [u])) eqn:L.
  - apply Nat.ltb_lt in L. rewrite length_app in L. simpl in L.
    destruct (@exists_last _ pre ltac:(intros ->; simpl in L; lia))
      as (pre' & v & ->).
    rewrite <- app_assoc. cbn [app].
    destruct (item_last_two pre' v u) as [-> _]. cbn [bind].
    rewrite Au. cbn [bind].
    destruct (Ha v) as [Av Nv];
      [rewrite <- app_assoc; apply in_or_app; right; simpl; auto|].
    destruct v as [|b v']; [contradiction|].
    rewrite Av. cbn [bind].
    eexists. split; [reflexivity|]. split; [reflexivity|].
    exists (pre' ++ [b :: v']), u. split; [rewrite <- app_assoc; reflexivity|].
    split; [reflexivity|]. rewrite rev_app_distr. reflexivity.
  - cbn [bind]. rewrite Au. cbn [bind].
    apply Nat.ltb_ge in L. rewrite length_app in L. simpl in L.
    destruct pre; [|simpl in L; lia].
    eexists. split; [reflexivity|]. split; [reflexivity|].
    exists [], u. repeat split; reflexivity.
Qed.

(** X17, at the NETFLIX line. *)
Lemma matched_line_is_a_transaction_witness :
  exists r,
    transaccion netflix_line = Ret (Some r) /\ Tipo r = PStr Transaccion /\
    Monto_UYU r = PFloat (1500 # 1).
Proof.
  destruct (re_match trans_pattern netflix_line) as [[rest c]|] eqn:E;
    [|vm_compute in E; discriminate].
  destruct (@matched_line_is_a_transaction netflix_line rest c E)
    as (r & H1 & H2 & _).
  exists r. split; [exact H1|]. split; [exact H2|].
  vm_compute in H1. inversion H1. reflexivity.
Defined.

(** ** What the groups hold *)

Lemma star_loop_pure (R : Type) body g (k : str -> caps -> option R) r :
  (forall s c k' x, body s c k' = Some x ->
     exists s1, matches r s s1 /\ k' s1 c = Some x) ->
  forall fuel s c x, star_loop body g k fuel s c = Some x ->
     exists s', matches (Star g r) s s' /\ k s' c = Some x.
Proof.
  intros Hbody fuel; induction fuel as [|f IH]; intros s c x H; simpl in H.
  - exists s; split; [constructor | exact H].
  - assert (Hagain : forall y,
      body s c (fun s1 c1 => if length s1 <? length s
                             then star_loop body g k f s1 c1 else None)
      = Some y ->
      exists s', matches (Star g r) s s' /\ k s' c = Some y).
    { intros y Hy. apply Hbody in Hy. destruct Hy as (s1 & Hm & Hk).
      destruct (length s1 <? length s); [|discriminate].
      apply IH in Hk. destruct Hk as (s' & Hs & Hk).
      exists s'; split; [eapply M_StarS; eauto | exact Hk]. }
    destruct g.
    + destruct (body s c _) as [y|].
      * inversion H; subst. apply Hagain. reflexivity.
      * exists s; split; [constructor | exact H].
    + destruct (k s c) as [y|] eqn:E.
      * inversion H; subst. exists s; split; [constructor | exact E].
      * apply Hagain. exact H.
Qed.

(** A pattern without groups leaves the captures as they were. *)
Lemma rmatch_pure r :
  group_free r = true ->
  forall (R : Type) n s c (k : str -> caps -> option R) x,
    rmatch n r s c k = Some x ->
    exists s', matches r s s' /\ k s' c = Some x.
Proof.
  induction r; intros Hg R n s c k x H; cbn [group_free] in Hg;
    try discriminate; simpl in H.
  - exists s; split; [constructor | exact H].
  - destruct s as [|a s']; [discriminate|].
    destruct (p a) eqn:E; [|discriminate].
    exists s'; split; [constructor; exact E | exact H].
  - apply andb_prop in Hg. destruct Hg as [G1 G2].
    apply (IHr1 G1) in H. destruct H as (s1 & H1 & H).
    apply (IHr2 G2) in H. destruct H as (s2 & H2 & H).
    exists s2; split; [econstructor; eauto | exact H].
  - apply andb_prop in Hg. destruct Hg as [G1 G2].
    destruct (rmatch n r1 s c k) as [y|] eqn:E.
    + inversion H; subst. apply (IHr1 G1) in E. destruct E as (s1 & H1 & E).
      exists s1; split; [apply M_AltL; exact H1 | exact E].
    + apply (IHr2 G2) in H. destruct H as (s1 & H1 & E').
      exists s1; split; [apply M_AltR; exact H1 | exact E'].
  - eapply star_loop_pure; [|exact H]. intros. eapply (IHr Hg); eauto.
  - destruct (rmatch n r s c _) as [c1|] eqn:E; [|discriminate].
    apply (IHr Hg) in E. destruct E as (s1 & H1 & E).
    inversion E; subst.
    exists s; split; [eapply M_Look; eauto | exact H].
  - destruct (length s =? n); [|discriminate].
    exists s; split; [constructor | exact H].
  - exists s.
    destruct s as [|a [|b t]]; try discriminate.
    + split; [constructor | exact H].
    + destruct (is_char "010" a); [|discriminate].
      split; [constructor | exact H].
Qed.

Lemma rmatch_seq_pure (R : Type) n r1 r2 s c
      (k : str -> caps -> option R) x :
  group_free r1 = true ->
  rmatch n (r1 >> r2) s c k = Some x ->
  exists s1, matches r1 s s1 /\ rmatch n r2 s1 c k = Some x.
Proof. intros Hg H. simpl in H. apply (rmatch_pure r1 Hg) in H. exact H. Qed.

(** A group around a pattern without groups holds what it consumed. *)
Lemma rmatch_group_pure (R : Type) n i r s c
      (k : str -> caps -> option R) x :
  group_free r = true ->
  rmatch n (Group i r) s c k = Some x ->
  exists u s', s = u ++ s' /\ matches r s s' /\ k s' ((i, u) :: c) = Some x.
Proof.
  intros Hg H. simpl in H. apply (rmatch_pure r Hg) in H.
  destruct H as (s' & Hm & H).
  destruct (matches_split Hm) as (u & ->).
  rewrite firstn_matched in H. exists u, s'. auto.
Qed.

Lemma rmatch_seq_group (R : Type) n i r1 r2 s c
      (k : str -> caps -> option R) x :
  group_free r1 = true ->
  rmatch n (Group i r1 >> r2) s c k = Some x ->
  exists u s1, s = u ++ s1 /\ matches r1 s s1 /\
               rmatch n r2 s1 ((i, u) :: c) k = Some x.
Proof.
  intros Hg H.
  change (rmatch n (Group i r1) s c
                 (fun s1 c1 => rmatch n r2 s1 c1 k) = Some x) in H.
  apply rmatch_group_pure in H; assumption.
Qed.

Lemma rmatch_seq_alt (R : Type) n r1 r2 r3 s c
      (k : str -> caps -> option R) x :
  rmatch n (Alt r1 r2 >> r3) s c k = Some x ->
  rmatch n (r1 >> r3) s c k = Some x \/ rmatch n (r2 >> r3) s c k = Some x.
Proof.
  cbn [rmatch].
  destruct (rmatch n r1 s c _) as [y|]; intros H; [left | right]; exact H.
Qed.

Lemma two_of p u s :
  matches (Times 2 (Chr p)) (u ++ s) s ->
  Forall (fun a => p a = true) u /\ length u = 2.
Proof.
  intros H. apply inv_two in H. destruct H as (a & b & E & Ha & Hb).
  change (a :: b :: s) with ([a; b] ++ s) in E.
  apply app_inv_tail in E. subst u. auto.
Qed.

Lemma four_of p u s :
  matches (Times 4 (Chr p)) (u ++ s) s ->
  Forall (fun a => p a = true) u /\ length u = 4.
Proof.
  intros H. apply inv_seq in H. destruct H as (s1 & H1 & H).
  apply inv_chr in H1. destruct H1 as (a & E & Ha).
  apply inv_three in H. destruct H as (b & c0 & e & E' & Hb & Hc & He).
  rewrite E' in E.
  change (a :: b :: c0 :: e :: s) with ([a; b; c0; e] ++ s) in E.
  apply app_inv_tail in E. subst u.
  split; [repeat constructor; assumption | reflexivity].
Qed.

(** The three groups of the date. *)
Lemma date_pattern_groups (R : Type) n s c
      (k : str -> caps -> option R) x :
  rmatch n date_pattern s c k = Some x ->
  exists dd mm yy s',
    digits dd /\ digits mm /\ digits yy /\
    length dd = 2 /\ length mm = 2 /\ length yy = 2 /\
    k s' ((3, yy) :: (2, mm) :: (1, dd) :: c) = Some x.
Proof.
  unfold date_pattern. intros H.
  apply rmatch_seq_group in H; [|reflexivity].
  destruct H as (dd & s1 & -> & M1 & H). apply two_of in M1.
  apply rmatch_seq_pure in H; [|reflexivity].
  destruct H as (s2 & _ & H).
  apply rmatch_seq_group in H; [|reflexivity].
  destruct H as (mm & s3 & -> & M2 & H). apply two_of in M2.
  apply rmatch_seq_pure in H; [|reflexivity].
  destruct H as (s4 & _ & H).
  apply rmatch_group_pure in H; [|reflexivity].
  destruct H as (yy & s5 & -> & M3 & H). apply two_of in M3.
  exists dd, mm, yy, s5. unfold digits. tauto.
Qed.

Lemma date_of_groups dd mm yy c :
  digits dd -> digits mm -> digits yy ->
  length dd = 2 -> length mm = 2 -> length yy = 2 ->
  group c 1 = Some dd -> group c 2 = Some mm -> group c 3 = Some yy ->
  is_date (fmt (group c 1) ++ lit "/" ++ fmt (group c 2) ++ lit "/"
           ++ fmt (group c 3)).
Proof.
  intros D1 D2 D3 L1 L2 L3 -> -> ->. exists dd, mm, yy. cbn [fmt]. tauto.
Qed.

Lemma search_from_some n r :
  forall s m, search_from n r s = Some m ->
              exists p t, s = p ++ t /\ match_at n r t = Some m.
Proof.
  induction s as [|a s IH]; intros m H; simpl in H.
  - exists [], []. auto.
  - destruct (match_at n r (a :: s)) as [m'|] eqn:E.
    + inversion H; subst. exists [], (a :: s). auto.
    + apply IH in H. destruct H as (p & t & -> & H).
      exists (a :: p), t. auto.
Qed.

(** The groups after a match of [trans_pattern]. *)
Lemma trans_pattern_groups line rest c :
  re_match trans_pattern line = Some (rest, c) ->
  exists dd mm yy desc code,
    digits dd /\ digits mm /\ digits yy /\
    length dd = 2 /\ length mm = 2 /\ length yy = 2 /\
    group c 1 = Some dd /\ group c 2 = Some mm /\ group c 3 = Some yy /\
    group c 5 = Some desc /\
    match group c 4 with Some t => t | None => [] end = code /\
    is_code code.
Proof.
  unfold re_match, match_at, trans_pattern, date_prefix. intros H.
  change (rmatch (length line) (Bol >> Star true sp >> date_pattern)
            line []
            (fun s1 c1 => rmatch (length line) trans_tail s1 c1
                                 (fun s' c' => Some (s', c')))
          = Some (rest, c)) in H.
  apply rmatch_seq_pure in H; [|reflexivity].
  destruct H as (s1 & _ & H).
  apply rmatch_seq_pure in H; [|reflexivity].
  destruct H as (s2 & _ & H).
  apply date_pattern_groups in H.
  destruct H as (dd & mm & yy & s3 & D1 & D2 & D3 & L1 & L2 & L3 & H).
  unfold trans_tail in H.
  apply rmatch_seq_pure in H; [|reflexivity].
  destruct H as (s4 & _ & H).
  unfold Opt in H. apply rmatch_seq_alt in H. destruct H as [H|H].
  - apply rmatch_seq_group in H; [|reflexivity].
    destruct H as (code & s5 & -> & M4 & H). apply four_of in M4.
    apply rmatch_seq_pure in H; [|reflexivity].
    destruct H as (s6 & _ & H).
    apply rmatch_seq_group in H; [|reflexivity].
    destruct H as (desc & s7 & -> & _ & H).
    apply rmatch_pure in H; [|reflexivity].
    destruct H as (s8 & _ & H). inversion H; subst.
    exists dd, mm, yy, desc, code. cbn.
    repeat split; try assumption; try reflexivity.
    right. exact M4.
  - apply rmatch_seq_pure in H; [|reflexivity].
    destruct H as (s5 & _ & H).
    apply rmatch_seq_pure in H; [|reflexivity].
    destruct H as (s6 & _ & H).
    apply rmatch_seq_group in H; [|reflexivity].
    destruct H as (desc & s7 & -> & _ & H).
    apply rmatch_pure in H; [|reflexivity].
    destruct H as (s8 & _ & H). inversion H; subst.
    exists dd, mm, yy, desc, []. cbn.
    repeat split; try assumption; try reflexivity.
    left. reflexivity.
Qed.

Lemma date_search_groups line rest c :
  re_search date_pattern line = Some (rest, c) ->
  is_date (fmt (group c 1) ++ lit "/" ++ fmt (group c 2) ++ lit "/"
           ++ fmt (group c 3)).
Proof.
  unfold re_search. intros H. apply search_from_some in H.
  destruct H as (p & t & _ & H). unfold match_at in H.
  apply date_pattern_groups in H.
  destruct H as (dd & mm & yy & s' & D1 & D2 & D3 & L1 & L2 & L3 & H).
  inversion H; subst.
  apply (@date_of_groups dd mm yy); auto.
Qed.

Lemma plus_digits_of u s :
  matches (Plus d) (u ++ s) s -> digits u /\ u <> [].
Proof.
  unfold d. intros H. apply inv_plus_chr in H.
  destruct H as (a & v & E & Ha & Hv).
  change (a :: v ++ s) with ((a :: v) ++ s) in E.
  apply app_inv_tail in E. subst u.
  split; [constructor; assumption | discriminate].
Qed.

Lemma cuota_search_groups desc rest c :
  re_search cuota_pattern desc = Some (rest, c) ->
  is_installment (fmt (group c 1)).
Proof.
  unfold re_search. intros H. apply search_from_some in H.
  destruct H as (p & t & _ & H). unfold match_at, cuota_pattern in H.
  apply rmatch_group_pure in H; [|reflexivity].
  destruct H as (u & s' & -> & M & H). inversion H; subst. cbn.
  apply inv_seq in M. destruct M as (s1 & M1 & M).
  apply inv_seq in M. destruct M as (s2 & M2 & M3).
  destruct (matches_split M1) as (n1 & E1).
  destruct (matches_split M3) as (n3 & E3).
  apply inv_chr in M2. destruct M2 as (a & E2 & Ha).
  apply is_char_eq in Ha. subst a. subst s2 s1.
  rewrite E1 in M1. apply plus_digits_of in M1.
  apply plus_digits_of in M3.
  right. exists n1, n3.
  split; [|tauto].
  apply (app_inv_tail rest). rewrite E1. rewrite <- !app_assoc. reflexivity.
Qed.

Lemma blank_well_formed r :
  Fecha r = PStr [] -> Codigo r = PStr [] -> Cuotas r = PStr [] ->
  well_formed r.
Proof.
  intros F C Q. exists [], [], [].
  repeat split; try assumption; left; reflexivity.
Qed.

Lemma pagos_well_formed line r :
  pagos line = Ret (Some r) -> well_formed r.
Proof.
  unfold pagos. intros H.
  destruct (contains _ _); [|discriminate].
  destruct (re_search date_pattern line) as [[rest c]|] eqn:S;
    [|discriminate].
  apply date_search_groups in S.
  destruct (2 <=? _); [|discriminate].
  break_outcome H.
  eexists; exists [], []. cbn.
  repeat split; try reflexivity; [right; exact S | left | left]; reflexivity.
Qed.

Lemma transaccion_well_formed line r :
  transaccion line = Ret (Some r) -> well_formed r.
Proof.
  unfold transaccion. intros H.
  destruct (re_match trans_pattern line) as [[rest c]|] eqn:M;
    [|discriminate].
  apply trans_pattern_groups in M.
  destruct M as (dd & mm & yy & desc & code & D1 & D2 & D3 & L1 & L2 & L3
                 & G1 & G2 & G3 & G5 & G4 & Hcode).
  pose proof (@date_of_groups dd mm yy c D1 D2 D3 L1 L2 L3 G1 G2 G3) as Hd.
  rewrite G5 in H. cbn [bind] in H. rewrite G4 in H.
  assert (Hq : is_installment
                 (match re_search cuota_pattern (strip desc) with
                  | Some (_, cc) => fmt (group cc 1)
                  | None => []
                  end)).
  { destruct (re_search cuota_pattern (strip desc)) as [[rest' cc]|] eqn:S;
      [eapply cuota_search_groups; exact S | left; reflexivity]. }
  set (cuotas := match re_search cuota_pattern (strip desc) with
                 | Some (_, cc) => fmt (group cc 1)
                 | None => []
                 end) in *.
  clearbody cuotas.
  set (fecha := fmt (group c 1) ++ lit "/" ++ fmt (group c 2) ++ lit "/"
                ++ fmt (group c 3)) in *.
  clearbody fecha.
  destruct (re_findall num_pattern (strip rest)) as [|a0 l];
    [discriminate|].
  unfold bind in H.
  destruct (item (a0 :: l) (-1)); [discriminate|].
  destruct (if 1 <? length (a0 :: l) then _ else _) as [|usd_str];
    [discriminate|].
  destruct (amount _); [discriminate|].
  destruct (match usd_str with Some (_ :: _) => _ | _ => _ end);
    [discriminate|].
  inversion H; subst; clear H.
  exists fecha, (match group c 4 with Some t => t | None => [] end), cuotas.
  cbn. tauto.
Qed.

(** X18.  The text fields of every record: the date is [dd/dd/dd]
    with digits, or empty; the code is four digits, or empty; the
    installments are [n/m] with digits, or empty. *)
Theorem record_fields_are_well_formed (line : str) (r : record) :
  parse_line line = Ret (Some r) -> well_formed r.
Proof.
  unfold parse_line. intros H.
  destruct (length (rstrip line) <? 20); [discriminate|].
  apply or_next_some in H. destruct H as [H|[_ H]].
  { apply saldo_anterior_shape in H.
    destruct H as (_ & _ & F & C & Q & _). apply blank_well_formed; auto. }
  apply or_next_some in H. destruct H as [H|[_ H]].
  { eapply pagos_well_formed. exact H. }
  apply or_next_some in H. destruct H as [H|[_ H]].
  { apply seguro_shape in H.
    destruct H as (_ & _ & F & C & Q & _). apply blank_well_formed; auto. }
  apply or_next_some in H. destruct H as [H|[_ H]].
  { apply saldo_contado_shape in H.
    destruct H as (_ & _ & F & C & Q & _). apply blank_well_formed; auto. }
  eapply transaccion_well_formed. exact H.
Qed.

(** X18, at the record of the NETFLIX line. *)
Lemma record_fields_are_well_formed_witness : well_formed netflix_record.
Proof.
  apply (@record_fields_are_well_formed netflix_line).
  vm_compute. reflexivity.
Defined.

(** ** The frame of the text stage *)

Lemma records_frame_rectangular recs :
  rectangular (records_frame recs) (length recs).
Proof.
  unfold rectangular, records_frame.
  repeat (apply Forall_cons; [apply length_map|]). constructor.
Qed.

Lemma rows_records_frame recs :
  rows (records_frame recs) = map record_cells recs.
Proof.
  induction recs as [|r recs IH].
  - reflexivity.
  - rewrite (@rows_cons (records_frame (r :: recs)) (length recs)).
    + change (tails (records_frame (r :: recs))) with (records_frame recs).
      rewrite IH. reflexivity.
    + discriminate.
    + apply (records_frame_rectangular (r :: recs)).
Qed.

Lemma line_records_in line r :
  In r (line_records line) -> parse_line line = Ret (Some r).
Proof.
  unfold line_records. destruct (parse_line line) as [|[r'|]];
    simpl; intros H; try contradiction.
  destruct H as [->|[]]. reflexivity.
Qed.

Lemma shaped_record_cells r :
  balance_shape r \/ payment_shape r \/ charge_shape r \/
  transaction_shape r ->
  non_na (record_cells r) = 7.
Proof.
  unfold balance_shape, payment_shape, charge_shape, transaction_shape,
    is_float, is_text, record_cells, non_na.
  intros H.
  repeat match goal with
         | H : _ \/ _ |- _ => destruct H
         | H : _ /\ _ |- _ => destruct H
         | H : exists _, _ |- _ => destruct H
         end;
    repeat match goal with
           | H : _ = _ |- _ => rewrite H; clear H
           end;
    reflexivity.
Qed.

(** X19.  In the frame [parse_text_to_csv] writes, the rows are the
    records, in order, and every row has its seven cells: after the
    [fillna] no cell is missing. *)
Theorem text_rows_are_complete (text : str) :
  rows (records_frame (text_records text))
  = map record_cells (text_records text) /\
  Forall (fun cells => non_na cells = 7)
         (rows (records_frame (text_records text))).
Proof.
  split; [apply rows_records_frame|].
  rewrite rows_records_frame. apply Forall_map, Forall_forall.
  intros r Hin. unfold text_records in Hin.
  apply in_flat_map in Hin. destruct Hin as (line & _ & Hin).
  apply line_records_in, parse_line_cases in Hin.
  apply shaped_record_cells.
  destruct Hin as [H|[H|[H|[H|H]]]].
  - left. eapply saldo_anterior_shape. exact H.
  - right. left. eapply pagos_shape. exact H.
  - right. right. left. eapply seguro_shape. exact H.
  - left. eapply saldo_contado_shape. exact H.
  - right. right. right. eapply transaccion_shape. exact H.
Qed.

(** ** The table stage returns *)

(** X20.  A table that cleans to more than five rows is the result:
    the text is not parsed and the chat is not asked. *)
Theorem table_stage_wins (w : world) (file_path : str)
        (pages : list page) (combined : text_frame) (cleaned : frame) :
  path_exists w file_path = true ->
  endswith (lit ".pdf") (lower file_path) = true ->
  pdf_open w file_path = Ret pages ->
  page_tables pages <> [] ->
  frame_of_tables w (page_tables pages) = Ret combined ->
  clean_df combined = Ret cleaned ->
  5 < nrows cleaned ->
  pdf_to_csv w file_path = ([Tables], Some (to_csv w cleaned)).
Proof.
  intros He Hx Ho Ht Hf Hc Hn.
  rewrite (@pdf_to_csv_opened w file_path pages He Hx Ho).
  unfold table_stage.
  destruct (page_tables pages) as [|t ts]; [contradiction|].
  rewrite Hf. cbn [bind]. rewrite Hc. cbn [bind].
  apply Nat.ltb_lt in Hn. rewrite Hn. reflexivity.
Qed.

(** X20, at a page with a table of six rows and a text of four records. *)
Lemma table_stage_wins_witness :
  pdf_to_csv six_row_world (lit "estado.pdf")
  = ([Tables], Some (lit "rows:******")).
Proof.
  apply (@table_stage_wins six_row_world (lit "estado.pdf")
           [ {| extract_table := Some six_row_table;
                extract_text := Some four_lines |} ]
           six_row_frame six_row_cleaned).
  - reflexivity.
  - vm_compute. reflexivity.
  - reflexivity.
  - vm_compute. discriminate.
  - reflexivity.
  - vm_compute. reflexivity.
  - vm_compute. lia.
Defined.
